(** * youtube-transcript-sdk: client, error taxonomy and polling loops

    A shallow embedding of [src/types.ts], [src/errors.ts] and
    [src/client.ts].

    Conventions of the embedding.
    - A TypeScript [number] that the client only counts with or passes on
      (HTTP status, timeout, interval, maxAttempts) is an integer of [Z].
      Where such a number is parsed from a string or printed into one, it
      is taken as the double nearest to it, as the language does.
    - An optional field [f?: T] is [option T]; [None] is [undefined].
    - Strings are [string]; a header value is a byte string, so one [ascii]
      per code unit is exact there.
    - The client object and the world (the network's answers and the trace
      of timers, calls and delays) form one explicit state that every
      asynchronous method threads; a call ends by returning a value or by
      throwing an error. *)

From Stdlib Require Import ZArith String Ascii List Bool Lia DecimalString.
Import ListNotations.

Open Scope string_scope.
Open Scope Z_scope.

(* ------------------------------------------------------------------ *)
(** ** JavaScript values the client relies on *)

(** An [unknown] JSON value, carried through untouched. *)
#[local] Unset Elimination Schemes.
Inductive JsonValue : Type :=
| JNull
| JBool (b : bool)
| JNumber (n : Z)
| JString (s : string)
| JArray (items : list JsonValue)
| JObject (fields : list (string * JsonValue)).
#[local] Set Elimination Schemes.

(** [Record<string, unknown>] *)
Definition JsRecord : Type := list (string * JsonValue).

(** The Number values [parseInt] can return.  [Int z] is the double whose
    value is the integer [z], [NegZero] is [-0], [Infinity negative] is
    plus or minus infinity and [NaN] is not-a-number. *)
Inductive JsNumber : Type :=
| NaN
| NegZero
| Int (z : Z)
| Infinity (negative : bool).

Definition isNaN (n : JsNumber) : bool :=
  match n with NaN => true | _ => false end.

(** The integer a Number denotes, when it denotes one. *)
Definition number_value (n : JsNumber) : option Z :=
  match n with
  | NaN => None
  | NegZero => Some 0
  | Int z => Some z
  | Infinity _ => None
  end.

(** The value of the double nearest to the positive integer [m], ties to
    the even significand; [None] when that is beyond the largest double,
    where the Number value is infinity.  A double holds 53 significant
    bits: with [e] the position of the highest bit of [m], the bits below
    position [e - 52] are rounded away. *)
Definition round_to_double (m : Z) : option Z :=
  let e := Z.log2 m in
  if e <=? 52 then Some m
  else
    let shift := e - 52 in
    let q := Z.shiftr m shift in
    let r := m - Z.shiftl q shift in
    let half := Z.shiftl 1 (shift - 1) in
    let q' :=
      if (half <? r) || ((r =? half) && Z.odd q) then q + 1 else q in
    let v := Z.shiftl q' shift in
    if Z.shiftl 1 1024 <=? v then None else Some v.

(** The Number value for a mathematical integer other than zero. *)
Definition Number_of (x : Z) : JsNumber :=
  match round_to_double (Z.abs x) with
  | Some v => Int (Z.sgn x * v)
  | None => Infinity (x <? 0)
  end.

(** Truthiness of a [string | undefined | null]: only a non-empty string. *)
Definition truthy_string (s : option string) : bool :=
  match s with
  | Some (String _ _) => true
  | _ => false
  end.

(** [a || b] on strings. *)
Definition or_string (a : option string) (b : string) : string :=
  match a with
  | Some (String c r) => String c r
  | _ => b
  end.

(** [a || b] on numbers. *)
Definition or_number (a : option Z) (b : Z) : Z :=
  match a with
  | Some z => if z =? 0 then b else z
  | None => b
  end.

(** *** Number-to-string conversion inside a template literal *)

(** The decimal digits of an integer. *)
Definition decimal (n : Z) : string :=
  NilZero.string_of_int (Z.to_int n).

(** [n] zeros. *)
Fixpoint zeros (n : nat) : string :=
  match n with
  | O => EmptyString
  | S k => String "0" (zeros k)
  end.

(** The shortest digits that still denote the double [x], a positive
    integer: the pair [(s, p)] with the largest [p] for which [s * 10^p]
    rounds to [x], and among the [s] for that [p] the one that brings
    [s * 10^p] closest to [x], the even one when two are as close.  The
    search goes down from [p = fuel], for which the number of digits of [x]
    is enough, since no higher power of ten comes near [x]; at [p = 0] the
    integer itself fits. *)
Fixpoint shortest_digits (fuel : nat) (x : Z) : Z * Z :=
  match fuel with
  | O => (x, 0)
  | S rest =>
      let p := Z.of_nat fuel in
      let lo := x / 10 ^ p in
      let hi := lo + 1 in
      let fits (s : Z) : bool :=
        (0 <? s)
        && match round_to_double (s * 10 ^ p) with
           | Some v => v =? x
           | None => false
           end in
      let below := x - lo * 10 ^ p in
      let above := hi * 10 ^ p - x in
      match fits lo, fits hi with
      | true, true =>
          if below <? above then (lo, p)
          else if above <? below then (hi, p)
          else if Z.even lo then (lo, p) else (hi, p)
      | true, false => (lo, p)
      | false, true => (hi, p)
      | false, false => shortest_digits rest x
      end
  end.

(** [Number::toString] for a double that is a positive integer.  Up to
    2^53 every integer is a double and its digits are the shortest; beyond,
    the shortest digits [s] are followed by zeros while the number has at
    most 21 digits, and put in exponent form otherwise. *)
Definition positive_toString (x : Z) : string :=
  if x <=? 9007199254740992 then decimal x
  else
    let '(s, p) := shortest_digits (String.length (decimal x)) x in
    let digits := decimal s in
    let n := Z.of_nat (String.length digits) + p in
    if n <=? 21 then digits ++ zeros (Z.to_nat p)
    else
      match digits with
      | EmptyString => EmptyString
      | String d EmptyString => String d ("e+" ++ decimal (n - 1))
      | String d more => String d ("." ++ more ++ "e+" ++ decimal (n - 1))
      end.

(** The text a template literal makes of the number [n]. *)
Definition string_of_number (n : Z) : string :=
  if n =? 0 then "0"
  else
    match round_to_double (Z.abs n) with
    | Some v => (if n <? 0 then "-" else "") ++ positive_toString v
    | None => if n <? 0 then "-Infinity" else "Infinity"
    end.

(** *** [String.prototype.replace] with the pattern [/\/+$/] *)

Definition is_slash (c : ascii) : bool := (c =? "/")%char.

(** Does [\/+$] match at the start of [s]: a non-empty run of slashes that
    reaches the end of the string.  [slashes_to_end] is the run, possibly
    empty. *)
Fixpoint slashes_to_end (s : string) : bool :=
  match s with
  | EmptyString => true
  | String c r => is_slash c && slashes_to_end r
  end.

Definition matches_trailing_slashes (s : string) : bool :=
  match s with
  | EmptyString => false
  | String _ _ => slashes_to_end s
  end.

(** [s.replace(/\/+$/, "")]: the pattern is tried at each position from the
    left; the first match is replaced by the empty string, and since the
    match reaches the end of the string nothing follows it.  Without a match
    the string is returned as it is. *)
Fixpoint replace_trailing_slashes (s : string) : string :=
  match s with
  | EmptyString => EmptyString
  | String c r =>
      if matches_trailing_slashes s then EmptyString
      else String c (replace_trailing_slashes r)
  end.

(** [n] slashes. *)
Fixpoint slashes (n : nat) : string :=
  match n with
  | O => EmptyString
  | S k => String "/" (slashes k)
  end.

(** Does the string end with a slash. *)
Fixpoint ends_with_slash (s : string) : bool :=
  match s with
  | EmptyString => false
  | String c EmptyString => is_slash c
  | String _ r => ends_with_slash r
  end.

(** *** [parseInt(string, 10)] *)

(** WhiteSpace and LineTerminator code units below 256: TAB, LF, VT, FF, CR,
    SP and NBSP. *)
Definition is_white_space (c : ascii) : bool :=
  let n := nat_of_ascii c in
  ((9 <=? n) && (n <=? 13) || (n =? 32) || (n =? 160))%nat.

Definition digit_value (c : ascii) : option Z :=
  let n := Z.of_nat (nat_of_ascii c) in
  if (48 <=? n) && (n <=? 57) then Some (n - 48) else None.

Fixpoint skip_white_space (s : string) : string :=
  match s with
  | String c r => if is_white_space c then skip_white_space r else s
  | EmptyString => EmptyString
  end.

(** The digits that open [s], most significant first: the part of the
    string before the first code unit that is not a radix-10 digit. *)
Fixpoint leading_digits (s : string) : list Z :=
  match s with
  | String c r =>
      match digit_value c with
      | Some d => d :: leading_digits r
      | None => []
      end
  | EmptyString => []
  end.

Definition digits_value (ds : list Z) : Z :=
  fold_left (fun acc d => 10 * acc + d) ds 0.

(** [parseInt(input, 10)].  Digits that denote no double give the nearest
    one.  Past the 20th significant digit the standard lets an
    implementation approximate further; this definition does not. *)
Definition parseInt10 (input : string) : JsNumber :=
  let s := skip_white_space input in
  let '(sign, s) :=
    match s with
    | String "-" r => (-1, r)
    | String "+" r => (1, r)
    | _ => (1, s)
    end in
  match leading_digits s with
  | [] => NaN
  | ds =>
      let mathInt := digits_value ds in
      if mathInt =? 0
      then (if sign =? -1 then NegZero else Int 0)
      else Number_of (sign * mathInt)
  end.

(** A string that is an integer and nothing else: an optional sign and then
    one or more decimal digits, up to the end of the string. *)
Fixpoint all_digits (s : string) : bool :=
  match s with
  | EmptyString => true
  | String c r =>
      match digit_value c with
      | Some _ => all_digits r
      | None => false
      end
  end.

Definition is_integer_string (s : string) : bool :=
  let body :=
    match s with
    | String "-" r => r
    | String "+" r => r
    | _ => s
    end in
  match body with
  | EmptyString => false
  | String _ _ => all_digits body
  end.

(** The integer such a string denotes. *)
Definition integer_of_string (s : string) : Z :=
  match s with
  | String "-" r => - digits_value (leading_digits r)
  | String "+" r => digits_value (leading_digits r)
  | _ => digits_value (leading_digits s)
  end.

(** The string without the sign it may open with, and that sign. *)
Definition strip_sign (s : string) : string :=
  match s with
  | String "-" r => r
  | String "+" r => r
  | _ => s
  end.

Definition sign_of (s : string) : Z :=
  match s with
  | String "-" _ => -1
  | _ => 1
  end.

(** A string that opens with an integer: after white space, if any, an
    optional sign and then a decimal digit. *)
Definition opens_with_integer (s : string) : bool :=
  match leading_digits (strip_sign (skip_white_space s)) with
  | [] => false
  | _ :: _ => true
  end.

(** The [Headers] of a response, through the one method the client calls. *)
Module Headers.
Record t : Type := mk { get : string -> option string }.
End Headers.

(* ------------------------------------------------------------------ *)
(** ** [types.ts] *)

Module FormatOptions.
Record t : Type := mk {
  timestamp : option bool;
  paragraphs : option bool;
  words : option bool
}.
End FormatOptions.

Inductive Source : Type := auto | manual | asr.

Module TranscribeRequest.
Record t : Type := mk {
  video : string;
  language : option string;
  source : option Source;
  allow_asr : option bool;
  format : option FormatOptions.t;
  webhook_url : option string
}.
End TranscribeRequest.

Module BatchRequest.
Record t : Type := mk {
  video_ids : list string;
  language : option string;
  source : option Source;
  allow_asr : option bool;
  format : option FormatOptions.t;
  webhook_url : option string
}.
End BatchRequest.

Module TranscriptPayload.
Record t : Type := mk {
  text : string;
  language : string;
  source : string;
  segments : option (list JsRecord);
  paragraphs : option (list JsRecord);
  words : option (list JsRecord)
}.
End TranscriptPayload.

Inductive TranscribeStatus : Type :=
| completed
| processing
| failed
| requires_asr_confirmation.

Module TranscribeData.
Record t : Type := mk {
  video_id : string;
  transcript : TranscriptPayload.t;
  video_title : option (option string)
}.
End TranscribeData.

Module TranscribeResponse.
Record t : Type := mk {
  request_id : string;
  status : TranscribeStatus;
  data : option TranscribeData.t;
  error : option string;
  job_id : option (option string);
  estimated_credits : option Z;
  duration_minutes : option (option Z);
  suggestion : option string;
  credits_used : option Z
}.
End TranscribeResponse.

Inductive BatchStatus : Type :=
| batch_completed
| batch_partial
| batch_processing.

Module BatchSummary.
Record t : Type := mk {
  total : Z;
  succeeded : Z;
  failed : Z;
  processing : Z
}.
End BatchSummary.

Module BatchResponse.
Record t : Type := mk {
  batch_id : string;
  status : BatchStatus;
  results : list TranscribeResponse.t;
  summary : option BatchSummary.t;
  credits_used : option Z
}.
End BatchResponse.

Module ErrorResponse.
Record t : Type := mk {
  error : string;
  message : string;
  details : option JsRecord
}.
End ErrorResponse.

Module YouTubeTranscriptOptions.
(** [apiKey] is declared [string]; it is optional here so that a caller
    from plain JavaScript who leaves it out is covered. *)
Record t : Type := mk {
  apiKey : option string;
  baseUrl : option string;
  timeout : option Z
}.
End YouTubeTranscriptOptions.

(* ------------------------------------------------------------------ *)
(** ** [errors.ts] *)

(** The classes of the taxonomy.  [RateLimitError] is the one subclass with
    a field of its own, [retryAfter?: number]. *)
Inductive ErrorClass : Type :=
| YouTubeTranscriptErrorClass
| InvalidRequestErrorClass
| AuthenticationErrorClass
| InsufficientCreditsErrorClass
| NoCaptionsErrorClass
| RateLimitErrorClass (retryAfter : option JsNumber).

Module YouTubeTranscriptError.
(** An instance of [YouTubeTranscriptError] or of one of its subclasses:
    [class_] is the class it was built by, the other fields are those the
    base constructor sets ([message] by [super(...)] of [Error]). *)
Record t : Type := mk {
  class_ : ErrorClass;
  name : string;
  message : string;
  status : Z;
  errorCode : string;
  details : option JsRecord
}.

(** [constructor(status, body)] of the base class. *)
Definition new (status : Z) (body : ErrorResponse.t) : t :=
  {| class_ := YouTubeTranscriptErrorClass;
     name := "YouTubeTranscriptError";
     message := or_string (Some (ErrorResponse.message body))
                          (ErrorResponse.error body);
     status := status;
     errorCode := ErrorResponse.error body;
     details := ErrorResponse.details body |}.

(** A subclass constructor: [super(code, body)], then [this.name = ...]
    (and, for [RateLimitError], [this.retryAfter = ...]). *)
Definition subclass (c : ErrorClass) (nm : string) (code : Z)
    (body : ErrorResponse.t) : t :=
  let base := new code body in
  {| class_ := c;
     name := nm;
     message := message base;
     status := status base;
     errorCode := errorCode base;
     details := details base |}.

(** [this.retryAfter]: [undefined] on every class but [RateLimitError]. *)
Definition retryAfter (e : t) : option JsNumber :=
  match class_ e with
  | RateLimitErrorClass r => r
  | _ => None
  end.
End YouTubeTranscriptError.

Definition new_InvalidRequestError (body : ErrorResponse.t) :=
  YouTubeTranscriptError.subclass
    InvalidRequestErrorClass "InvalidRequestError" 400 body.

Definition new_AuthenticationError (body : ErrorResponse.t) :=
  YouTubeTranscriptError.subclass
    AuthenticationErrorClass "AuthenticationError" 401 body.

Definition new_InsufficientCreditsError (body : ErrorResponse.t) :=
  YouTubeTranscriptError.subclass
    InsufficientCreditsErrorClass "InsufficientCreditsError" 402 body.

Definition new_NoCaptionsError (body : ErrorResponse.t) :=
  YouTubeTranscriptError.subclass
    NoCaptionsErrorClass "NoCaptionsError" 404 body.

Definition new_RateLimitError (body : ErrorResponse.t)
    (retryAfter : option JsNumber) :=
  YouTubeTranscriptError.subclass
    (RateLimitErrorClass retryAfter) "RateLimitError" 429 body.

(** Which class an instance belongs to, as [instanceof] on the leaf class
    would tell. *)
Inductive Variant : Type :=
| Generic
| InvalidRequest
| Authentication
| InsufficientCredits
| NoCaptions
| RateLimit.

Definition variant_of (e : YouTubeTranscriptError.t) : Variant :=
  match YouTubeTranscriptError.class_ e with
  | YouTubeTranscriptErrorClass => Generic
  | InvalidRequestErrorClass => InvalidRequest
  | AuthenticationErrorClass => Authentication
  | InsufficientCreditsErrorClass => InsufficientCredits
  | NoCaptionsErrorClass => NoCaptions
  | RateLimitErrorClass _ => RateLimit
  end.

(** Anything a [throw] can carry in this program: an instance of the typed
    taxonomy, or another error object known by its [name] and [message]
    ([new Error(..)], a [DOMException], a [TypeError], a [SyntaxError]). *)
Inductive JsError : Type :=
| Typed (e : YouTubeTranscriptError.t)
| Untyped (name message : string).

(** [new Error(message)] *)
Definition new_Error (message : string) : JsError := Untyped "Error" message.

(** [error instanceof YouTubeTranscriptError] *)
Definition instanceof_YouTubeTranscriptError (e : JsError) : bool :=
  match e with
  | Typed _ => true
  | Untyped _ _ => false
  end.

(** [(error as Error).name] *)
Definition error_name (e : JsError) : string :=
  match e with
  | Typed t => YouTubeTranscriptError.name t
  | Untyped n _ => n
  end.

Definition error_message (e : JsError) : string :=
  match e with
  | Typed t => YouTubeTranscriptError.message t
  | Untyped _ m => m
  end.

(* ------------------------------------------------------------------ *)
(** ** [client.ts]: the error mapper *)

Definition createError (status : Z) (body : ErrorResponse.t)
    (headers : Headers.t) : YouTubeTranscriptError.t :=
  if status =? 400 then new_InvalidRequestError body
  else if status =? 401 then new_AuthenticationError body
  else if status =? 402 then new_InsufficientCreditsError body
  else if status =? 404 then new_NoCaptionsError body
  else if status =? 429 then
    let retryAfter := Headers.get headers "Retry-After" in
    new_RateLimitError body
      (if truthy_string retryAfter
       then match retryAfter with
            | Some v => Some (parseInt10 v)
            | None => None
            end
       else None)
  else YouTubeTranscriptError.new status body.

(* ------------------------------------------------------------------ *)
(** ** The world a client runs in *)

(** A parsed response body.  [response.json()] yields an untyped value that
    the client reads through a type assertion and never checks: [data as T]
    on success, [body: ErrorResponse] on failure.  A body is therefore given
    by what each of these readings finds in it.  [isNull] tells the one
    body that has nothing to read, the JSON value [null]: reading a
    property of it throws a [TypeError], as the error mapper does with the
    body of a failure.  The body of a success is handed on through [cast]
    as it is. *)
Module Json.
Record t : Type := mk {
  isNull : bool;
  asTranscribeResponse : TranscribeResponse.t;
  asBatchResponse : BatchResponse.t;
  asErrorResponse : ErrorResponse.t
}.
End Json.

(** What reaches [post] as [body: unknown]. *)
Inductive RequestBody : Type :=
| TranscribeBody (request : TranscribeRequest.t)
| BatchBody (request : BatchRequest.t).

(** The text [JSON.stringify] makes of a request body. *)
Inductive JsonText : Type :=
| JSON_stringify (body : RequestBody).

(** The second argument of [fetch] (the abort signal is that of the timer
    armed just before). *)
Module RequestInit.
Record t : Type := mk {
  method : string;
  headers : list (string * string);
  body : option JsonText
}.
End RequestInit.

(** How one HTTP exchange ends, as the network decides it. *)
Inductive FetchOutcome : Type :=
| Responds (status : Z) (headers : Headers.t) (json : option Json.t)
    (** a response arrives; [json] is [None] when its body is not JSON, so
        that [response.json()] rejects with a [SyntaxError] *)
| TimerFires
    (** the abort timer fires first: the pending call rejects with a
        [DOMException] named [AbortError] *)
| Rejects (name message : string)
    (** a transport failure: [fetch] rejects with that error *).

(** What the client does to the outside, in order. *)
Inductive Event : Type :=
| SetAbortTimer (ms : Z)
| Fetch (url : string) (init : RequestInit.t)
| ClearTimer
| Delay (ms : Z).

Definition is_fetch (e : Event) : bool :=
  match e with
  | Fetch _ _ => true
  | _ => false
  end.

(** Number of network calls in a trace. *)
Definition fetches (trace : list Event) : nat :=
  List.length (filter is_fetch trace).

(** The delays awaited in a trace. *)
Definition delays (trace : list Event) : list Z :=
  flat_map (fun e => match e with Delay ms => [ms] | _ => [] end) trace.

(** The timers armed in a trace. *)
Definition abort_timers (trace : list Event) : list Z :=
  flat_map (fun e => match e with SetAbortTimer ms => [ms] | _ => [] end)
           trace.

(** The network answers the [n]-th call (from 0) with [network n]; [trace]
    is what has been done so far, oldest first. *)
Module World.
Record t : Type := mk {
  network : nat -> FetchOutcome;
  trace : list Event
}.
End World.

(** An instance of the class: its three private fields. *)
Module YouTubeTranscript.
Record t : Type := mk {
  apiKey : string;
  baseUrl : string;
  timeout : Z
}.
End YouTubeTranscript.

(** The state a method runs in: the object it is called on and the world. *)
Module State.
Record t : Type := mk {
  this : YouTubeTranscript.t;
  world : World.t
}.
End State.

(** How a call ends. *)
Inductive Completion (A : Type) : Type :=
| Returned (value : A)
| Thrown (error : JsError).

Arguments Returned {A} value.
Arguments Thrown {A} error.

(** An asynchronous method, awaited. *)
Definition M (A : Type) : Type := State.t -> Completion A * State.t.

Definition ret {A} (a : A) : M A := fun s => (Returned a, s).

Definition throw {A} (e : JsError) : M A := fun s => (Thrown e, s).

Definition bind {A B} (m : M A) (k : A -> M B) : M B :=
  fun s =>
    match m s with
    | (Returned a, s') => k a s'
    | (Thrown e, s') => (Thrown e, s')
    end.

(** [try { m } catch (error) { handler }] *)
Definition try_catch {A} (m : M A) (handler : JsError -> M A) : M A :=
  fun s =>
    match m s with
    | (Returned a, s') => (Returned a, s')
    | (Thrown e, s') => handler e s'
    end.

(** [try { m } finally { cleanup }] *)
Definition try_finally {A} (m : M A) (cleanup : M unit) : M A :=
  fun s =>
    match m s with
    | (r, s') =>
        match cleanup s' with
        | (Returned _, s'') => (r, s'')
        | (Thrown e, s'') => (Thrown e, s'')
        end
    end.

Declare Scope js_scope.
Delimit Scope js_scope with js.
Notation "x <- m ;; k" := (bind m (fun x => k))
  (at level 61, m at next level, right associativity) : js_scope.
Notation "m ;; k" := (bind m (fun _ => k))
  (at level 61, right associativity) : js_scope.
Open Scope js_scope.

(** Reading a field of [this]. *)
Definition this_ {A} (field : YouTubeTranscript.t -> A) : M A :=
  fun s => (Returned (field (State.this s)), s).

(** Appending to the trace. *)
Definition emit (e : Event) : M unit :=
  fun s =>
    (Returned tt,
     State.mk (State.this s)
       (World.mk (World.network (State.world s))
                 (World.trace (State.world s) ++ [e]))).

(** [response.ok] *)
Definition ok (status : Z) : bool := (200 <=? status) && (status <=? 299).

(** What [fetch] resolves to: the status, the headers and the body still to
    be parsed. *)
Module Response.
Record t : Type := mk {
  status : Z;
  headers : Headers.t;
  body : option Json.t
}.
End Response.

(** [await fetch(url, init)] *)
Definition fetch (url : string) (init : RequestInit.t) : M Response.t :=
  fun s =>
    let w := State.world s in
    let outcome := World.network w (fetches (World.trace w)) in
    let s' := State.mk (State.this s)
                (World.mk (World.network w) (World.trace w ++ [Fetch url init]))
    in
    match outcome with
    | Responds status headers json =>
        (Returned (Response.mk status headers json), s')
    | TimerFires =>
        (Thrown (Untyped "AbortError" "This operation was aborted"), s')
    | Rejects name message =>
        (Thrown (Untyped name message), s')
    end.

(** [await response.json()] *)
Definition response_json (response : Response.t) : M Json.t :=
  match Response.body response with
  | Some data => ret data
  | None => throw (Untyped "SyntaxError" "Unexpected token in JSON")
  end.

(* ------------------------------------------------------------------ *)
(** ** [client.ts]: the class *)

Definition DEFAULT_BASE_URL : string := "https://youtubetranscript.dev/api/v2".
Definition DEFAULT_TIMEOUT : Z := 30000.

(** [new YouTubeTranscript(options)] *)
Definition constructor (options : YouTubeTranscriptOptions.t)
    : Completion YouTubeTranscript.t :=
  match YouTubeTranscriptOptions.apiKey options with
  | Some (String c r) =>
      Returned
        {| YouTubeTranscript.apiKey := String c r;
           YouTubeTranscript.baseUrl :=
             replace_trailing_slashes
               (or_string (YouTubeTranscriptOptions.baseUrl options)
                          DEFAULT_BASE_URL);
           YouTubeTranscript.timeout :=
             or_number (YouTubeTranscriptOptions.timeout options)
                       DEFAULT_TIMEOUT |}
  | _ =>
      Thrown
        (new_Error
           "API key is required. Get one at https://youtubetranscript.dev")
  end.

(** *** HTTP helpers *)

Definition request_headers (apiKey : string) : list (string * string) :=
  [ ("Authorization", "Bearer " ++ apiKey);
    ("Content-Type", "application/json");
    ("User-Agent", "youtube-transcript-sdk/1.0.0") ].

(** The [catch] block of [request]. *)
Definition request_catch {T} (path : string) (error : JsError) : M T :=
  if instanceof_YouTubeTranscriptError error then throw error
  else if (error_name error =? "AbortError")%string then
    timeout <- this_ YouTubeTranscript.timeout ;;
    throw (new_Error ("Request to " ++ path ++ " timed out after "
                        ++ string_of_number timeout ++ "ms"))
  else throw error.

(** [this.createError(response.status, data, response.headers)] as it is
    evaluated: every constructor of the taxonomy starts by reading
    [body.message], which throws when the body is [null]. *)
Definition new_mapped_error (status : Z) (data : Json.t) (headers : Headers.t)
    : M YouTubeTranscriptError.t :=
  if Json.isNull data then
    throw (Untyped "TypeError"
             "Cannot read properties of null (reading 'message')")
  else ret (createError status (Json.asErrorResponse data) headers).

(** [request<T>(method, path, body)]; [cast] is the reading [data as T]. *)
Definition request {T} (cast : Json.t -> T) (method path : string)
    (body : option RequestBody) : M T :=
  baseUrl <- this_ YouTubeTranscript.baseUrl ;;
  let url := baseUrl ++ path in
  timeout <- this_ YouTubeTranscript.timeout ;;
  emit (SetAbortTimer timeout) ;;
  try_finally
    (try_catch
       (apiKey <- this_ YouTubeTranscript.apiKey ;;
        response <- fetch url
          {| RequestInit.method := method;
             RequestInit.headers := request_headers apiKey;
             RequestInit.body :=
               match body with
               | Some b => Some (JSON_stringify b)
               | None => None
               end |} ;;
        data <- response_json response ;;
        if negb (ok (Response.status response)) then
          error <- new_mapped_error (Response.status response) data
                     (Response.headers response) ;;
          throw (Typed error)
        else ret (cast data))
       (request_catch path))
    (emit ClearTimer).

Definition post {T} (cast : Json.t -> T) (path : string) (body : RequestBody)
    : M T :=
  request cast "POST" path (Some body).

Definition get {T} (cast : Json.t -> T) (path : string) : M T :=
  request cast "GET" path None.

(** *** [URLSearchParams] *)

Definition URLSearchParams : Type := list (string * string).

(** [params.set(name, value)]: the first entry of that name gets the value
    and later ones go; without one, the pair is appended. *)
Fixpoint params_set (params : URLSearchParams) (name value : string)
    : URLSearchParams :=
  match params with
  | [] => [(name, value)]
  | (n, v) :: rest =>
      if (n =? name)%string
      then (n, value) :: filter (fun p => negb (fst p =? name)%string) rest
      else (n, v) :: params_set rest name value
  end.

(** [params.toString()]; the names and values set by this client consist of
    letters and underscores, which the serializer leaves as they are. *)
Fixpoint params_toString (params : URLSearchParams) : string :=
  match params with
  | [] => ""
  | [(n, v)] => n ++ "=" ++ v
  | (n, v) :: rest => n ++ "=" ++ v ++ "&" ++ params_toString rest
  end.

(** *** Public methods *)

Definition transcribe (request : TranscribeRequest.t)
    : M TranscribeResponse.t :=
  post Json.asTranscribeResponse "/transcribe" (TranscribeBody request).

Definition getTranscript (video : string) (language : option string)
    : M TranscribeResponse.t :=
  transcribe
    {| TranscribeRequest.video := video;
       TranscribeRequest.language := language;
       TranscribeRequest.source := None;
       TranscribeRequest.allow_asr := None;
       TranscribeRequest.format := None;
       TranscribeRequest.webhook_url := None |}.

Definition batch (request : BatchRequest.t) : M BatchResponse.t :=
  post Json.asBatchResponse "/batch" (BatchBody request).

Module GetJobOptions.
Record t : Type := mk {
  include_segments : option bool;
  include_paragraphs : option bool;
  include_words : option bool
}.
End GetJobOptions.

(** [options?.flag], as a condition. *)
Definition flag_set (options : option GetJobOptions.t)
    (flag : GetJobOptions.t -> option bool) : bool :=
  match options with
  | Some o => match flag o with Some b => b | None => false end
  | None => false
  end.

Definition getJob_path (jobId : string) (options : option GetJobOptions.t)
    : string :=
  let params : URLSearchParams := [] in
  let params :=
    if flag_set options GetJobOptions.include_segments
    then params_set params "include_segments" "true" else params in
  let params :=
    if flag_set options GetJobOptions.include_paragraphs
    then params_set params "include_paragraphs" "true" else params in
  let params :=
    if flag_set options GetJobOptions.include_words
    then params_set params "include_words" "true" else params in
  let query := params_toString params in
  "/jobs/" ++ jobId
    ++ (if truthy_string (Some query) then "?" ++ query else "").

Definition getJob (jobId : string) (options : option GetJobOptions.t)
    : M TranscribeResponse.t :=
  get Json.asTranscribeResponse (getJob_path jobId options).

Definition getBatch (batchId : string) : M BatchResponse.t :=
  get Json.asBatchResponse ("/batch/" ++ batchId).

Module PollOptions.
Record t : Type := mk {
  interval : option Z;
  maxAttempts : option Z
}.
End PollOptions.

(** [options?.interval || 5_000] *)
Definition poll_interval (options : option PollOptions.t) : Z :=
  or_number
    (match options with Some o => PollOptions.interval o | None => None end)
    5000.

(** [options?.maxAttempts || 60] *)
Definition poll_maxAttempts (options : option PollOptions.t) : Z :=
  or_number
    (match options with Some o => PollOptions.maxAttempts o | None => None end)
    60.

(** [await new Promise((resolve) => setTimeout(resolve, interval))] *)
Definition sleep (interval : Z) : M unit := emit (Delay interval).

Definition job_terminal (status : TranscribeStatus) : bool :=
  match status with
  | completed => true
  | failed => true
  | _ => false
  end.

Definition batch_terminal (status : BatchStatus) : bool :=
  match status with
  | batch_completed => true
  | _ => false
  end.

(** The [for] loop of [waitForJob].  Its counter runs from 0 while it is
    below [maxAttempts] and the body does not read it, so the loop is given
    by the iterations it has left, [Z.to_nat maxAttempts] at the start.
    [Some result] is the [return result] inside the loop, [None] is the loop
    running out. *)
Fixpoint waitForJob_loop (iterations : nat) (jobId : string) (interval : Z)
    : M (option TranscribeResponse.t) :=
  match iterations with
  | O => ret None
  | S rest =>
      result <- getJob jobId None ;;
      if job_terminal (TranscribeResponse.status result) then ret (Some result)
      else sleep interval ;; waitForJob_loop rest jobId interval
  end.

Definition waitForJob (jobId : string) (options : option PollOptions.t)
    : M TranscribeResponse.t :=
  let interval := poll_interval options in
  let maxAttempts := poll_maxAttempts options in
  returned <- waitForJob_loop (Z.to_nat maxAttempts) jobId interval ;;
  match returned with
  | Some result => ret result
  | None =>
      throw (new_Error ("Job " ++ jobId ++ " did not complete after "
                          ++ string_of_number maxAttempts ++ " attempts"))
  end.

(** The [for] loop of [waitForBatch], in the same way. *)
Fixpoint waitForBatch_loop (iterations : nat) (batchId : string)
    (interval : Z) : M (option BatchResponse.t) :=
  match iterations with
  | O => ret None
  | S rest =>
      result <- getBatch batchId ;;
      if batch_terminal (BatchResponse.status result) then ret (Some result)
      else sleep interval ;; waitForBatch_loop rest batchId interval
  end.

Definition waitForBatch (batchId : string) (options : option PollOptions.t)
    : M BatchResponse.t :=
  let interval := poll_interval options in
  let maxAttempts := poll_maxAttempts options in
  returned <- waitForBatch_loop (Z.to_nat maxAttempts) batchId interval ;;
  match returned with
  | Some result => ret result
  | None =>
      throw (new_Error ("Batch " ++ batchId ++ " did not complete after "
                          ++ string_of_number maxAttempts ++ " attempts"))
  end.

(* ------------------------------------------------------------------ *)
(** ** Callers *)

(** One invocation of a public method. *)
Inductive Op : Type :=
| Transcribe (request : TranscribeRequest.t)
| GetTranscript (video : string) (language : option string)
| Batch (request : BatchRequest.t)
| GetJob (jobId : string) (options : option GetJobOptions.t)
| GetBatch (batchId : string)
| WaitForJob (jobId : string) (options : option PollOptions.t)
| WaitForBatch (batchId : string) (options : option PollOptions.t).

(** What an invocation resolves to. *)
Inductive OpResult : Type :=
| TranscribeResult (r : TranscribeResponse.t)
| BatchResult (r : BatchResponse.t).

Definition invoke (op : Op) : M OpResult :=
  match op with
  | Transcribe request => r <- transcribe request ;; ret (TranscribeResult r)
  | GetTranscript video language =>
      r <- getTranscript video language ;; ret (TranscribeResult r)
  | Batch request => r <- batch request ;; ret (BatchResult r)
  | GetJob jobId options => r <- getJob jobId options ;; ret (TranscribeResult r)
  | GetBatch batchId => r <- getBatch batchId ;; ret (BatchResult r)
  | WaitForJob jobId options =>
      r <- waitForJob jobId options ;; ret (TranscribeResult r)
  | WaitForBatch batchId options =>
      r <- waitForBatch batchId options ;; ret (BatchResult r)
  end.

(** A caller that awaits the invocations one after the other and catches
    whatever each throws: the state they leave, and how each ended. *)
Fixpoint invoke_all (ops : list Op) (s : State.t)
    : list (Completion OpResult) * State.t :=
  match ops with
  | [] => ([], s)
  | op :: rest =>
      let '(r, s') := invoke op s in
      let '(rs, s'') := invoke_all rest s' in
      (r :: rs, s'')
  end.

(** A program that builds a client from [options] and then invokes [ops] on
    it, in a world [w], catching nothing: the constructor's exception ends
    it before the first invocation. *)
Definition session (options : YouTubeTranscriptOptions.t) (ops : list Op)
    (w : World.t) : Completion (list (Completion OpResult)) * World.t :=
  match constructor options with
  | Thrown e => (Thrown e, w)
  | Returned client =>
      let '(rs, s) := invoke_all ops (State.mk client w) in
      (Returned rs, State.world s)
  end.

(* ------------------------------------------------------------------ *)
(** ** Notions the statements use *)

(** The state [s] once the events [events] have been added to its trace. *)
Definition state_after (s : State.t) (events : list Event) : State.t :=
  State.mk (State.this s)
    (World.mk (World.network (State.world s))
              (World.trace (State.world s) ++ events)).

(** What one call of [request] on the client [c] adds to the trace. *)
Definition exchange (c : YouTubeTranscript.t) (method path : string)
    (body : option RequestBody) : list Event :=
  [ SetAbortTimer (YouTubeTranscript.timeout c);
    Fetch (YouTubeTranscript.baseUrl c ++ path)
      {| RequestInit.method := method;
         RequestInit.headers :=
           request_headers (YouTubeTranscript.apiKey c);
         RequestInit.body :=
           match body with
           | Some b => Some (JSON_stringify b)
           | None => None
           end |};
    ClearTimer ].

(** [k] rounds of a polling loop that did not end it: the exchange, then the
    delay. *)
Fixpoint rounds (k : nat) (round : list Event) (interval : Z) : list Event :=
  match k with
  | O => []
  | S k' => (round ++ [Delay interval]) ++ rounds k' round interval
  end.

(** The message of the timeout error. *)
Definition timeout_message (path : string) (timeout : Z) : string :=
  "Request to " ++ path ++ " timed out after "
    ++ string_of_number timeout ++ "ms".

(** How a request to [path] ends on the client [c] when the network answers
    it with [outcome]. *)
Definition answer {T} (cast : Json.t -> T) (c : YouTubeTranscript.t)
    (path : string) (outcome : FetchOutcome) : Completion T :=
  match outcome with
  | Responds status headers (Some data) =>
      if ok status then Returned (cast data)
      else if Json.isNull data then
        Thrown (Untyped "TypeError"
                  "Cannot read properties of null (reading 'message')")
      else Thrown (Typed (createError status (Json.asErrorResponse data)
                            headers))
  | Responds _ _ None =>
      Thrown (Untyped "SyntaxError" "Unexpected token in JSON")
  | TimerFires =>
      Thrown (new_Error (timeout_message path (YouTubeTranscript.timeout c)))
  | Rejects name message =>
      if (name =? "AbortError")%string
      then Thrown (new_Error
                     (timeout_message path (YouTubeTranscript.timeout c)))
      else Thrown (Untyped name message)
  end.

(** The network's answer to the [i]-th call made from the state [s] on. *)
Definition upcoming (s : State.t) (i : nat) : FetchOutcome :=
  World.network (State.world s)
    (fetches (World.trace (State.world s)) + i).

(** How the [i]-th [getJob] of a polling loop started in [s] ends, and the
    [i]-th [getBatch]. *)
Definition job_poll (s : State.t) (jobId : string) (i : nat)
    : Completion TranscribeResponse.t :=
  answer Json.asTranscribeResponse (State.this s) (getJob_path jobId None)
    (upcoming s i).

Definition batch_poll (s : State.t) (batchId : string) (i : nat)
    : Completion BatchResponse.t :=
  answer Json.asBatchResponse (State.this s) ("/batch/" ++ batchId)
    (upcoming s i).

(** The errors of the two polling loops when the attempts run out. *)
Definition job_exhausted (jobId : string) (maxAttempts : Z) : JsError :=
  new_Error ("Job " ++ jobId ++ " did not complete after "
               ++ string_of_number maxAttempts ++ " attempts").

Definition batch_exhausted (batchId : string) (maxAttempts : Z) : JsError :=
  new_Error ("Batch " ++ batchId ++ " did not complete after "
               ++ string_of_number maxAttempts ++ " attempts").

(** The shape the two polling loops share: [iterations] rounds of a GET on
    [path], read through [cast], ended by the first result that [terminal]
    accepts. *)
Fixpoint poll_loop {T} (cast : Json.t -> T) (path : string)
    (terminal : T -> bool) (interval : Z) (iterations : nat) : M (option T) :=
  match iterations with
  | O => ret None
  | S rest =>
      result <- get cast path ;;
      if terminal result then ret (Some result)
      else sleep interval ;; poll_loop cast path terminal interval rest
  end.

(** The [i]-th poll from [s] answers, with a result that does not end the
    loop. *)
Definition polls_on {T} (cast : Json.t -> T) (path : string)
    (terminal : T -> bool) (s : State.t) (i : nat) : Prop :=
  exists r, answer cast (State.this s) path (upcoming s i) = Returned r
            /\ terminal r = false.

(** A computation that leaves the object and the network as they are and
    only adds to the trace. *)
Definition appends_only {A} (m : M A) : Prop :=
  forall s, exists events, snd (m s) = state_after s events.

(** *** Notions for the traces of whole calls *)

Definition is_clear (e : Event) : bool :=
  match e with
  | ClearTimer => true
  | _ => false
  end.

(** Number of timers cleared in a trace. *)
Definition clears (trace : list Event) : nat :=
  List.length (filter is_clear trace).

(** One step of the client [c] as a trace shows it: an awaited delay, the
    exchange of a GET that carries no body, or the exchange of a POST that
    carries one. *)
Definition step_of (c : YouTubeTranscript.t) (block : list Event) : Prop :=
  (exists ms, block = [Delay ms])
  \/ (exists path, block = exchange c "GET" path None)
  \/ (exists path body, block = exchange c "POST" path (Some body)).

(** A trace made of such steps, one after the other. *)
Definition steps_of (c : YouTubeTranscript.t) (events : list Event) : Prop :=
  exists blocks, events = concat blocks /\ Forall (step_of c) blocks.

(** A computation that leaves the object and the network as they are and
    adds whole steps of the client to the trace. *)
Definition adds_steps {A} (m : M A) : Prop :=
  forall s, exists events,
    snd (m s) = state_after s events /\ steps_of (State.this s) events.

(** The two methods that poll. *)
Definition is_polling (op : Op) : bool :=
  match op with
  | WaitForJob _ _ => true
  | WaitForBatch _ _ => true
  | _ => false
  end.

(** The flags of [getJob] that are explicitly true, in the order the method
    looks at them. *)
Definition flags_on (options : option GetJobOptions.t) : list string :=
  ((if flag_set options GetJobOptions.include_segments
    then ["include_segments"] else [])
   ++ (if flag_set options GetJobOptions.include_paragraphs
       then ["include_paragraphs"] else [])
   ++ (if flag_set options GetJobOptions.include_words
       then ["include_words"] else []))%list.

(** [name=true] for each name, joined by [&]. *)
Fixpoint query_of (names : list string) : string :=
  match names with
  | [] => ""
  | [n] => n ++ "=true"
  | n :: rest => n ++ "=true&" ++ query_of rest
  end.

(* ------------------------------------------------------------------ *)
(** ** Sample values *)

Definition sample_error_body : ErrorResponse.t :=
  {| ErrorResponse.error := "rate_limited";
     ErrorResponse.message := "Too many requests";
     ErrorResponse.details := None |}.

(** Response headers whose [Retry-After] is [v]. *)
Definition headers_with_retry_after (v : option string) : Headers.t :=
  Headers.mk (fun name => if (name =? "Retry-After")%string then v else None).

Definition sample_client : YouTubeTranscript.t :=
  {| YouTubeTranscript.apiKey := "key_123";
     YouTubeTranscript.baseUrl := "https://x";
     YouTubeTranscript.timeout := 30000 |}.

Definition sample_transcribe_response (st : TranscribeStatus)
    : TranscribeResponse.t :=
  {| TranscribeResponse.request_id := "req_1";
     TranscribeResponse.status := st;
     TranscribeResponse.data := None;
     TranscribeResponse.error := None;
     TranscribeResponse.job_id := Some (Some "job_abc123");
     TranscribeResponse.estimated_credits := None;
     TranscribeResponse.duration_minutes := None;
     TranscribeResponse.suggestion := None;
     TranscribeResponse.credits_used := None |}.

Definition sample_batch_response (st : BatchStatus)
    (results : list TranscribeResponse.t) : BatchResponse.t :=
  {| BatchResponse.batch_id := "batch_abc123";
     BatchResponse.status := st;
     BatchResponse.results := results;
     BatchResponse.summary := None;
     BatchResponse.credits_used := None |}.

(** A body that reads as [r] when taken for a transcription response, and
    one that reads as [r] when taken for a batch response. *)
Definition json_of_transcribe (r : TranscribeResponse.t) : Json.t :=
  {| Json.isNull := false;
     Json.asTranscribeResponse := r;
     Json.asBatchResponse := sample_batch_response batch_processing [];
     Json.asErrorResponse := sample_error_body |}.

Definition json_of_batch (r : BatchResponse.t) : Json.t :=
  {| Json.isNull := false;
     Json.asTranscribeResponse := sample_transcribe_response processing;
     Json.asBatchResponse := r;
     Json.asErrorResponse := sample_error_body |}.

(** The body [null]. *)
Definition json_null : Json.t :=
  {| Json.isNull := true;
     Json.asTranscribeResponse := sample_transcribe_response processing;
     Json.asBatchResponse := sample_batch_response batch_processing [];
     Json.asErrorResponse := sample_error_body |}.

Definition no_headers : Headers.t := Headers.mk (fun _ => None).

(** A network that answers the calls with [outcomes], in order, and lets
    the timer fire on every call after those. *)
Definition scripted (outcomes : list FetchOutcome) : nat -> FetchOutcome :=
  fun n => nth n outcomes TimerFires.

(** A network that gives every call the same answer. *)
Definition always (outcome : FetchOutcome) : nat -> FetchOutcome :=
  fun _ => outcome.

(** The sample client in a world where nothing has happened yet. *)
Definition sample_state (network : nat -> FetchOutcome) : State.t :=
  State.mk sample_client (World.mk network []).

Definition job_says (st : TranscribeStatus) : FetchOutcome :=
  Responds 200 no_headers
    (Some (json_of_transcribe (sample_transcribe_response st))).

Definition batch_says (st : BatchStatus) (results : list TranscribeResponse.t)
    : FetchOutcome :=
  Responds 200 no_headers
    (Some (json_of_batch (sample_batch_response st results))).

(* ------------------------------------------------------------------ *)
(** * Properties *)

(** ** The error mapper *)

(** Claim C1.  For every status and every error payload, [createError]
    returns an error whose [status] field is the input status and whose
    class is the one of the table: 400 invalid request, 401 authentication,
    402 insufficient credits, 404 no captions, 429 rate limit, and the
    generic [YouTubeTranscriptError] for every other status.  The server's
    error code and details are carried as they came. *)
Theorem createError_maps_status (status : Z) (body : ErrorResponse.t)
    (headers : Headers.t) :
  let e := createError status body headers in
  YouTubeTranscriptError.status e = status /\
  variant_of e =
    match status with
    | 400 => InvalidRequest
    | 401 => Authentication
    | 402 => InsufficientCredits
    | 404 => NoCaptions
    | 429 => RateLimit
    | _ => Generic
    end /\
  YouTubeTranscriptError.name e =
    match status with
    | 400 => "InvalidRequestError"
    | 401 => "AuthenticationError"
    | 402 => "InsufficientCreditsError"
    | 404 => "NoCaptionsError"
    | 429 => "RateLimitError"
    | _ => "YouTubeTranscriptError"
    end /\
  YouTubeTranscriptError.errorCode e = ErrorResponse.error body /\
  YouTubeTranscriptError.details e = ErrorResponse.details body.
Proof.
  unfold createError.
  destruct (status =? 400) eqn:E400;
    [apply Z.eqb_eq in E400; subst; repeat split |].
  destruct (status =? 401) eqn:E401;
    [apply Z.eqb_eq in E401; subst; repeat split |].
  destruct (status =? 402) eqn:E402;
    [apply Z.eqb_eq in E402; subst; repeat split |].
  destruct (status =? 404) eqn:E404;
    [apply Z.eqb_eq in E404; subst; repeat split |].
  destruct (status =? 429) eqn:E429;
    [apply Z.eqb_eq in E429; subst; repeat split |].
  apply Z.eqb_neq in E400, E401, E402, E404, E429.
  cbn zeta.
  assert (Hv : forall (A : Type) (a b c d f g : A),
             match status with
             | 400 => a | 401 => b | 402 => c | 404 => d | 429 => f | _ => g
             end = g).
  { intros.
    destruct status as [|p|p]; try reflexivity.
    do 9 (destruct p as [p|p|]; try reflexivity); lia. }
  rewrite !Hv. repeat split.
Qed.

(** ** [parseInt] on the header value *)

Lemma digit_not_white_space (c : ascii) (d : Z) :
  digit_value c = Some d -> is_white_space c = false.
Proof.
  destruct c as [[] [] [] [] [] [] [] []]; vm_compute; congruence.
Qed.

(** A string that opens with a digit has no sign to strip. *)
Lemma digit_is_no_sign (c : ascii) (d : Z) (r : string) (A : Type)
    (minus plus : string -> A) (other : A) :
  digit_value c = Some d ->
  match String c r with
  | String "-" x => minus x
  | String "+" x => plus x
  | _ => other
  end = other.
Proof.
  destruct c as [[] [] [] [] [] [] [] []]; vm_compute; congruence.
Qed.

Lemma leading_digits_nonneg (s : string) (acc : Z) :
  0 <= acc ->
  0 <= fold_left (fun a d => 10 * a + d) (leading_digits s) acc.
Proof.
  revert acc. induction s as [|c r IH]; intros acc Hacc; cbn [leading_digits].
  - exact Hacc.
  - unfold digit_value.
    destruct ((48 <=? _) && (_ <=? 57)) eqn:E; [|exact Hacc].
    apply andb_true_iff in E as [E1 E2]. apply Z.leb_le in E1, E2.
    cbn [fold_left]. apply IH. lia.
Qed.

Lemma digits_value_nonneg (s : string) :
  0 <= digits_value (leading_digits s).
Proof. apply leading_digits_nonneg. lia. Qed.

(** Up to 2^53 every integer is a double. *)
Lemma round_to_double_exact (m : Z) :
  0 < m <= 9007199254740992 -> round_to_double m = Some m.
Proof.
  intros [Hpos Hle]. unfold round_to_double.
  destruct (Z.log2 m <=? 52) eqn:E; [reflexivity|].
  apply Z.leb_gt in E.
  assert (Hlog : Z.log2 m <= 53).
  { change 53 with (Z.log2 9007199254740992). now apply Z.log2_le_mono. }
  assert (Hm : m = 9007199254740992).
  { destruct (Z.log2_spec m Hpos) as [Hlow _].
    assert (E53 : Z.log2 m = 53) by lia. rewrite E53 in Hlow.
    change (2 ^ 53) with 9007199254740992 in Hlow. lia. }
  subst m. reflexivity.
Qed.

Lemma Number_of_exact (x : Z) :
  x <> 0 -> Z.abs x <= 9007199254740992 -> Number_of x = Int x.
Proof.
  intros Hne Hle. unfold Number_of.
  rewrite round_to_double_exact by lia. f_equal. lia.
Qed.

Lemma Number_of_not_NaN (x : Z) : isNaN (Number_of x) = false.
Proof. unfold Number_of. now destruct (round_to_double (Z.abs x)). Qed.

(** [parseInt] by the sign and the digits it finds. *)
Lemma parseInt10_shape (v : string) :
  parseInt10 v
  = let s := skip_white_space v in
    match leading_digits (strip_sign s) with
    | [] => NaN
    | ds =>
        let mathInt := digits_value ds in
        if mathInt =? 0
        then (if sign_of s =? -1 then NegZero else Int 0)
        else Number_of (sign_of s * mathInt)
    end.
Proof.
  unfold parseInt10. cbn zeta.
  destruct (skip_white_space v) as [|c r]; [reflexivity|].
  destruct c as [[] [] [] [] [] [] [] []]; reflexivity.
Qed.

(** The result is NaN exactly when the string opens with no integer. *)
Lemma parseInt10_NaN (v : string) :
  isNaN (parseInt10 v) = negb (opens_with_integer v).
Proof.
  rewrite parseInt10_shape. unfold opens_with_integer. cbn zeta.
  destruct (leading_digits (strip_sign (skip_white_space v))) as [|d ds];
    [reflexivity|].
  destruct (digits_value (d :: ds) =? 0); [now destruct (_ =? -1)|].
  apply Number_of_not_NaN.
Qed.

Lemma leading_digits_app (w rest : string) :
  all_digits w = true -> leading_digits rest = [] ->
  leading_digits (w ++ rest) = leading_digits w.
Proof.
  intros Hw Hrest. induction w as [|c r IH]; cbn in *; [assumption|].
  destruct (digit_value c); [|discriminate].
  now rewrite IH.
Qed.

(** An integer string opens with a sign or a digit, never with white
    space, and its value is its sign times its digits. *)
Lemma integer_string_parts (w : string) :
  is_integer_string w = true ->
  skip_white_space w = w
  /\ strip_sign w <> ""
  /\ all_digits (strip_sign w) = true
  /\ integer_of_string w
     = sign_of w * digits_value (leading_digits (strip_sign w))
  /\ forall rest, strip_sign (w ++ rest) = strip_sign w ++ rest
                  /\ sign_of (w ++ rest) = sign_of w.
Proof.
  destruct w as [|c r]; [discriminate|].
  intros H.
  change (match strip_sign (String c r) with
          | EmptyString => false
          | String _ _ => all_digits (strip_sign (String c r))
          end = true) in H.
  assert (Hbody : strip_sign (String c r) <> ""
                  /\ all_digits (strip_sign (String c r)) = true).
  { destruct (strip_sign (String c r)); [discriminate H|].
    split; [discriminate | exact H]. }
  destruct Hbody as [Hne Hall].
  destruct (ascii_dec c "-") as [->|Hm];
    [|destruct (ascii_dec c "+") as [->|Hp]].
  - repeat split; try assumption;
      unfold integer_of_string, sign_of, strip_sign; lia.
  - repeat split; try assumption;
      unfold integer_of_string, sign_of, strip_sign; lia.
  - assert (Hstrip : forall x, strip_sign (String c x) = String c x
                               /\ sign_of (String c x) = 1).
    { intros x. clear -Hm Hp.
      destruct c as [[] [] [] [] [] [] [] []];
        try (split; reflexivity); congruence. }
    destruct (Hstrip r) as [Es Eg].
    rewrite Es in Hall. cbn [all_digits] in Hall.
    destruct (digit_value c) as [d|] eqn:Hd; [|discriminate].
    split; [cbn [skip_white_space];
            now rewrite (digit_not_white_space _ _ Hd)|].
    split; [assumption|]. split; [now rewrite Es; cbn; rewrite Hd|].
    split.
    + rewrite Es, Eg. unfold integer_of_string.
      rewrite (digit_is_no_sign c d r _
                 (fun x => - digits_value (leading_digits x))
                 (fun x => digits_value (leading_digits x))
                 (digits_value (leading_digits (String c r))) Hd).
      lia.
    + intros rest. change (String c r ++ rest) with (String c (r ++ rest)).
      destruct (Hstrip (r ++ rest)) as [-> ->]. now rewrite Es, Eg.
Qed.

Lemma integer_string_opens (w rest : string) :
  is_integer_string w = true -> opens_with_integer (w ++ rest) = true.
Proof.
  intros H. destruct (integer_string_parts w H)
    as (Hskip & Hne & Hall & _ & Happ).
  destruct (Happ rest) as [Hstrip _].
  unfold opens_with_integer.
  assert (Hws : skip_white_space (w ++ rest) = w ++ rest).
  { destruct w as [|c r]; [discriminate|].
    cbn [append skip_white_space] in *.
    destruct (is_white_space c); [|reflexivity].
    exfalso. clear -Hskip.
    assert (L : forall s, (String.length (skip_white_space s)
                           <= String.length s)%nat).
    { induction s as [|a s IH]; cbn; [lia|].
      destruct (is_white_space a); cbn; lia. }
    specialize (L r). rewrite Hskip in L. cbn in L. lia. }
  rewrite Hws, Hstrip.
  destruct (strip_sign w) as [|c r]; [congruence|].
  cbn [append leading_digits]. cbn [all_digits] in Hall.
  now destruct (digit_value c).
Qed.

(** A string that opens with an integer, followed by something that is no
    digit, is read as that integer as long as the integer is a double. *)
Lemma parseInt10_integer_prefix (w rest : string) :
  is_integer_string w = true -> leading_digits rest = [] ->
  Z.abs (integer_of_string w) <= 9007199254740992 ->
  number_value (parseInt10 (w ++ rest)) = Some (integer_of_string w).
Proof.
  intros Hint Hrest Hbound.
  pose proof (integer_string_opens w rest Hint) as Hopen.
  destruct (integer_string_parts w Hint)
    as (Hskip & Hne & Hall & Hvalue & Happ).
  destruct (Happ rest) as [Hstrip Hsign].
  assert (Hws : skip_white_space (w ++ rest) = w ++ rest).
  { unfold opens_with_integer in Hopen.
    destruct w as [|c r]; [discriminate|].
    cbn [append skip_white_space] in *.
    destruct (is_white_space c) eqn:Ec; [|reflexivity].
    exfalso.
    assert (L : forall s, (String.length (skip_white_space s)
                           <= String.length s)%nat).
    { induction s as [|a s IH]; cbn; [lia|].
      destruct (is_white_space a); cbn; lia. }
    specialize (L r). rewrite Hskip in L. cbn in L. lia. }
  rewrite parseInt10_shape. cbn zeta.
  rewrite Hws, Hstrip, Hsign, (leading_digits_app _ _ Hall Hrest).
  rewrite Hvalue in Hbound |- *.
  pose proof (digits_value_nonneg (strip_sign w)) as Hnn.
  destruct (leading_digits (strip_sign w)) as [|d ds] eqn:Eds.
  - exfalso. destruct (strip_sign w) as [|c r]; [congruence|].
    cbn [leading_digits all_digits] in *.
    now destruct (digit_value c).
  - set (m := digits_value (d :: ds)) in *.
    assert (Hs : sign_of w = 1 \/ sign_of w = -1).
    { unfold sign_of. destruct w as [|c r]; [now left|].
      destruct c as [[] [] [] [] [] [] [] []]; auto. }
    destruct (m =? 0) eqn:E.
    + apply Z.eqb_eq in E. rewrite E.
      destruct Hs as [-> | ->]; reflexivity.
    + apply Z.eqb_neq in E.
      rewrite Number_of_exact; [reflexivity | nia | ].
      destruct Hs as [Hs | Hs]; rewrite Hs in *; lia.
Qed.

Lemma append_empty (s : string) : s ++ "" = s.
Proof. induction s as [|c r IH]; cbn; [reflexivity | now rewrite IH]. Qed.

(** ** The retry-after field of a rate-limit error *)

Example parseInt10_plain : parseInt10 "120" = Int 120.
Proof. reflexivity. Qed.

Example parseInt10_prefix : parseInt10 "12abc" = Int 12.
Proof. reflexivity. Qed.

Example parseInt10_date : parseInt10 "Wed, 21 Oct 2015 07:28:00 GMT" = NaN.
Proof. reflexivity. Qed.

Example parseInt10_negative_zero : parseInt10 "-0" = NegZero.
Proof. reflexivity. Qed.

(** Beyond 2^53 the result is the nearest double. *)
Example parseInt10_rounds :
  parseInt10 "9007199254740993" = Int 9007199254740992.
Proof. vm_compute. reflexivity. Qed.

(** On a 429 the field is [undefined] for a missing or empty header and the
    result of [parseInt] for any other. *)
Lemma retryAfter_429 (body : ErrorResponse.t) (headers : Headers.t) :
  YouTubeTranscriptError.retryAfter (createError 429 body headers)
  = match Headers.get headers "Retry-After" with
    | Some (String c s) => Some (parseInt10 (String c s))
    | _ => None
    end.
Proof.
  unfold createError. cbn [Z.eqb Pos.eqb].
  unfold new_RateLimitError, YouTubeTranscriptError.subclass,
    YouTubeTranscriptError.retryAfter.
  cbn [YouTubeTranscriptError.class_].
  now destruct (Headers.get headers "Retry-After") as [[|c s]|].
Qed.

(** An HTTP-date in the header leaves NaN in the field. *)
Example retryAfter_of_date :
  YouTubeTranscriptError.retryAfter
    (createError 429 sample_error_body
       (headers_with_retry_after (Some "Wed, 21 Oct 2015 07:28:00 GMT")))
  = Some NaN.
Proof. reflexivity. Qed.




(* ------------------------------------------------------------------ *)
(** ** One request *)

Lemma fetches_app (t u : list Event) :
  fetches (t ++ u) = (fetches t + fetches u)%nat.
Proof. unfold fetches. now rewrite filter_app, length_app. Qed.

Lemma fetches_exchange c method path body :
  fetches (exchange c method path body) = 1%nat.
Proof. reflexivity. Qed.

Lemma fetches_rounds k c method path body interval :
  fetches (rounds k (exchange c method path body) interval) = k.
Proof.
  induction k as [|k IH]; [reflexivity|].
  cbn [rounds]. rewrite fetches_app, IH. reflexivity.
Qed.

Lemma state_after_nil s : state_after s [] = s.
Proof.
  destruct s as [c [net tr]]. unfold state_after. cbn.
  now rewrite app_nil_r.
Qed.

Lemma state_after_app s t u :
  state_after (state_after s t) u = state_after s (t ++ u).
Proof. unfold state_after. cbn. now rewrite app_assoc. Qed.

Lemma upcoming_after s events i :
  upcoming (state_after s events) i = upcoming s (fetches events + i).
Proof.
  unfold upcoming, state_after.
  cbn [State.world World.network World.trace].
  rewrite fetches_app. f_equal. lia.
Qed.

(** [request] arms the timer, makes one call, clears the timer whatever
    happened, and ends as [answer] tells from the network's outcome. *)
Lemma request_run {T} (cast : Json.t -> T) (method path : string)
    (body : option RequestBody) (s : State.t) :
  request cast method path body s
  = (answer cast (State.this s) path (upcoming s 0),
     state_after s (exchange (State.this s) method path body)).
Proof.
  destruct s as [c [net tr]].
  unfold request, upcoming, answer, state_after, exchange, bind, this_, emit,
    try_finally, try_catch, fetch.
  cbn [State.this State.world World.network World.trace fst snd].
  rewrite fetches_app.
  change (fetches [SetAbortTimer (YouTubeTranscript.timeout c)]) with 0%nat.
  rewrite !Nat.add_0_r.
  unfold request_catch, ret, throw, bind, this_.
  destruct (net (fetches tr)) as [status headers [data|]| |name message];
    cbn [response_json Response.body Response.status Response.headers
         instanceof_YouTubeTranscriptError error_name].
  - unfold new_mapped_error, ret, throw, bind.
    destruct (ok status); [|destruct (Json.isNull data)];
      cbn -[app append string_of_number createError request_headers];
      rewrite <- !app_assoc; reflexivity.
  - cbn -[app append string_of_number createError request_headers].
    rewrite <- !app_assoc. reflexivity.
  - cbn -[app append string_of_number createError request_headers].
    rewrite <- !app_assoc. reflexivity.
  - destruct (name =? "AbortError")%string;
      cbn -[app append string_of_number createError request_headers];
      rewrite <- !app_assoc; reflexivity.
Qed.

(* ------------------------------------------------------------------ *)
(** ** What no method touches *)

Create HintDb frame.

Lemma appends_only_ret {A} (a : A) : appends_only (ret a).
Proof. intros s. exists []. cbn. now rewrite state_after_nil. Qed.

Lemma appends_only_throw {A} (e : JsError) : appends_only (@throw A e).
Proof. intros s. exists []. cbn. now rewrite state_after_nil. Qed.

Lemma appends_only_emit (e : Event) : appends_only (emit e).
Proof. intros s. now exists [e]. Qed.

Lemma appends_only_bind {A B} (m : M A) (k : A -> M B) :
  appends_only m -> (forall a, appends_only (k a)) ->
  appends_only (bind m k).
Proof.
  intros Hm Hk s. unfold bind.
  destruct (Hm s) as [t Ht]. destruct (m s) as [[a|e] s1]; cbn in Ht; subst.
  - destruct (Hk a (state_after s t)) as [u Hu].
    exists (t ++ u)%list. now rewrite Hu, state_after_app.
  - now exists t.
Qed.

Lemma appends_only_request {T} (cast : Json.t -> T) method path body :
  appends_only (request cast method path body).
Proof. intros s. rewrite request_run. now eexists. Qed.

#[local] Hint Resolve appends_only_ret appends_only_throw appends_only_emit
  appends_only_request : frame.
#[local] Hint Extern 2 (appends_only (bind _ _)) =>
  apply appends_only_bind; [|intro] : frame.
#[local] Hint Extern 1 (appends_only (if ?b then _ else _)) =>
  destruct b : frame.
#[local] Hint Extern 1 (appends_only (match ?x with Some _ => _ | None => _ end)) =>
  destruct x : frame.

Lemma appends_only_getJob jobId options :
  appends_only (getJob jobId options).
Proof. unfold getJob, get. auto with frame. Qed.

Lemma appends_only_getBatch batchId : appends_only (getBatch batchId).
Proof. unfold getBatch, get. auto with frame. Qed.

Lemma appends_only_transcribe request : appends_only (transcribe request).
Proof. unfold transcribe, post. auto with frame. Qed.

Lemma appends_only_batch request : appends_only (batch request).
Proof. unfold batch, post. auto with frame. Qed.

#[local] Hint Resolve appends_only_getJob appends_only_getBatch
  appends_only_transcribe appends_only_batch : frame.

Lemma appends_only_waitForJob_loop n jobId interval :
  appends_only (waitForJob_loop n jobId interval).
Proof.
  induction n as [|n IH]; cbn [waitForJob_loop]; unfold sleep;
    auto 8 with frame.
Qed.

Lemma appends_only_waitForBatch_loop n batchId interval :
  appends_only (waitForBatch_loop n batchId interval).
Proof.
  induction n as [|n IH]; cbn [waitForBatch_loop]; unfold sleep;
    auto 8 with frame.
Qed.

#[local] Hint Resolve appends_only_waitForJob_loop
  appends_only_waitForBatch_loop : frame.

Lemma appends_only_invoke (op : Op) : appends_only (invoke op).
Proof.
  destruct op; cbn [invoke];
    unfold getTranscript, waitForJob, waitForBatch; auto 8 with frame.
Qed.

Lemma invoke_all_appends (ops : list Op) (s : State.t) :
  exists events, snd (invoke_all ops s) = state_after s events.
Proof.
  revert s. induction ops as [|op ops IH]; intros s; cbn [invoke_all].
  - exists []. cbn. now rewrite state_after_nil.
  - destruct (appends_only_invoke op s) as [t Ht].
    destruct (invoke op s) as [r s1]. cbn in Ht. subst s1.
    destruct (IH (state_after s t)) as [u Hu].
    destruct (invoke_all ops (state_after s t)) as [rs s2]. cbn in Hu |- *.
    exists (t ++ u)%list. now rewrite Hu, state_after_app.
Qed.

(* ------------------------------------------------------------------ *)
(** ** The polling loops *)

Section Polling.

Context {T : Type}.
Variable cast : Json.t -> T.
Variable path : string.
Variable terminal : T -> bool.
Variable interval : Z.

#[local] Abbreviation goes_on := (polls_on cast path terminal).
#[local] Abbreviation round s := (exchange (State.this s) "GET" path None).

Lemma goes_on_after s events i :
  goes_on s (fetches events + i) -> goes_on (state_after s events) i.
Proof.
  intros (r & Hr & Ht). exists r. split; [|assumption].
  now rewrite upcoming_after.
Qed.

(** One round that does not end the loop. *)
Lemma poll_loop_step (n : nat) (s : State.t) :
  goes_on s 0 ->
  poll_loop cast path terminal interval (S n) s
  = poll_loop cast path terminal interval n
      (state_after s (round s ++ [Delay interval])).
Proof.
  intros (r & Hr & Ht).
  cbn [poll_loop]. unfold bind at 1. unfold get. rewrite request_run, Hr, Ht.
  unfold bind, sleep, emit.
  cbn [State.this State.world World.network World.trace state_after].
  unfold round, state_after.
  cbn [State.this State.world World.network World.trace].
  now rewrite <- app_assoc.
Qed.

(** The loop returns the first result that ends it, after one call per
    round and a delay after each round but the last. *)
Lemma poll_loop_returns (k n : nat) (s : State.t) (r : T) :
  (k < n)%nat ->
  (forall i, (i < k)%nat -> goes_on s i) ->
  answer cast (State.this s) path (upcoming s k) = Returned r ->
  terminal r = true ->
  poll_loop cast path terminal interval n s
  = (Returned (Some r),
     state_after s (rounds k (round s) interval ++ round s)).
Proof.
  revert n s. induction k as [|k IH]; intros n s Hlt Hbefore Hr Ht.
  - destruct n as [|n]; [lia|].
    cbn [poll_loop rounds app]. unfold bind, get.
    now rewrite request_run, Hr, Ht.
  - destruct n as [|n]; [lia|].
    rewrite poll_loop_step by (apply Hbefore; lia).
    rewrite (IH n (state_after s (round s ++ [Delay interval])) ).
    + rewrite state_after_app. cbn [rounds]. unfold round.
      cbn [state_after State.this]. now rewrite <- !app_assoc.
    + lia.
    + intros i Hi. apply goes_on_after.
      rewrite fetches_app. apply Hbefore. cbn. lia.
    + rewrite upcoming_after, fetches_app. exact Hr.
    + exact Ht.
Qed.

(** The loop runs out when none of its rounds ends it. *)
Lemma poll_loop_exhausts (n : nat) (s : State.t) :
  (forall i, (i < n)%nat -> goes_on s i) ->
  poll_loop cast path terminal interval n s
  = (Returned None, state_after s (rounds n (round s) interval)).
Proof.
  revert s. induction n as [|n IH]; intros s Hall.
  - cbn. now rewrite state_after_nil.
  - rewrite poll_loop_step by (apply Hall; lia).
    rewrite IH.
    + now rewrite state_after_app.
    + intros i Hi. apply goes_on_after.
      rewrite fetches_app. apply Hall. cbn. lia.
Qed.

(** The loop passes on what a poll throws. *)
Lemma poll_loop_throws (k n : nat) (s : State.t) (e : JsError) :
  (k < n)%nat ->
  (forall i, (i < k)%nat -> goes_on s i) ->
  answer cast (State.this s) path (upcoming s k) = Thrown e ->
  poll_loop cast path terminal interval n s
  = (Thrown e, state_after s (rounds k (round s) interval ++ round s)).
Proof.
  revert n s. induction k as [|k IH]; intros n s Hlt Hbefore He.
  - destruct n as [|n]; [lia|].
    cbn [poll_loop rounds app]. unfold bind, get.
    now rewrite request_run, He.
  - destruct n as [|n]; [lia|].
    rewrite poll_loop_step by (apply Hbefore; lia).
    rewrite (IH n (state_after s (round s ++ [Delay interval])) ).
    + rewrite state_after_app. cbn [rounds]. unfold round.
      cbn [state_after State.this]. now rewrite <- !app_assoc.
    + lia.
    + intros i Hi. apply goes_on_after.
      rewrite fetches_app. apply Hbefore. cbn. lia.
    + rewrite upcoming_after, fetches_app. exact He.
Qed.

(** Whatever the loop returns ended it. *)
Lemma poll_loop_returns_terminal (n : nat) (s s' : State.t) (r : T) :
  poll_loop cast path terminal interval n s = (Returned (Some r), s') ->
  terminal r = true.
Proof.
  revert s. induction n as [|n IH]; intros s; cbn [poll_loop].
  - discriminate.
  - unfold bind at 1. destruct (get cast path s) as [[a|e] s1]; [|discriminate].
    destruct (terminal a) eqn:Ha.
    + intros [= <- _]. exact Ha.
    + unfold bind, sleep, emit. apply IH.
Qed.

End Polling.

Lemma waitForJob_loop_shape (n : nat) (jobId : string) (interval : Z) :
  waitForJob_loop n jobId interval
  = poll_loop Json.asTranscribeResponse (getJob_path jobId None)
      (fun r => job_terminal (TranscribeResponse.status r)) interval n.
Proof.
  induction n as [|n IH]; cbn [waitForJob_loop poll_loop];
    [reflexivity | now rewrite IH].
Qed.

Lemma waitForBatch_loop_shape (n : nat) (batchId : string) (interval : Z) :
  waitForBatch_loop n batchId interval
  = poll_loop Json.asBatchResponse ("/batch/" ++ batchId)
      (fun r => batch_terminal (BatchResponse.status r)) interval n.
Proof.
  induction n as [|n IH]; cbn [waitForBatch_loop poll_loop];
    [reflexivity | now rewrite IH].
Qed.

Lemma job_terminal_iff (st : TranscribeStatus) :
  job_terminal st = true <-> st = completed \/ st = failed.
Proof.
  destruct st; cbn; split; intros H; try reflexivity; try discriminate;
    try (destruct H; discriminate); auto.
Qed.

Lemma job_terminal_false_iff (st : TranscribeStatus) :
  job_terminal st = false <-> st <> completed /\ st <> failed.
Proof.
  destruct st; cbn; split; intros H; try reflexivity; try discriminate;
    try (split; discriminate); destruct H; congruence.
Qed.

Lemma batch_terminal_iff (st : BatchStatus) :
  batch_terminal st = true <-> st = batch_completed.
Proof. destruct st; cbn; split; congruence. Qed.

Lemma batch_terminal_false_iff (st : BatchStatus) :
  batch_terminal st = false <-> st = batch_partial \/ st = batch_processing.
Proof.
  destruct st; cbn; split; intros H; try discriminate; auto;
    destruct H; discriminate.
Qed.

Lemma fetches_state_after s events :
  fetches (World.trace (State.world (state_after s events)))
  = (fetches (World.trace (State.world s)) + fetches events)%nat.
Proof. unfold state_after. cbn. apply fetches_app. Qed.

Lemma delays_app (t u : list Event) :
  delays (t ++ u) = (delays t ++ delays u)%list.
Proof. unfold delays. apply flat_map_app. Qed.

Lemma delays_rounds k c method path body interval :
  delays (rounds k (exchange c method path body) interval)
  = repeat interval k.
Proof.
  induction k as [|k IH]; [reflexivity|].
  cbn [rounds]. rewrite delays_app, IH. reflexivity.
Qed.

(** [waitForJob] when the [k]-th poll is the first to end the loop. *)
Lemma waitForJob_returns jobId options s (k : nat) r :
  (k < Z.to_nat (poll_maxAttempts options))%nat ->
  (forall i, (i < k)%nat ->
     polls_on Json.asTranscribeResponse (getJob_path jobId None)
       (fun r => job_terminal (TranscribeResponse.status r)) s i) ->
  job_poll s jobId k = Returned r ->
  job_terminal (TranscribeResponse.status r) = true ->
  waitForJob jobId options s
  = (Returned r,
     state_after s
       (rounds k (exchange (State.this s) "GET" (getJob_path jobId None) None)
               (poll_interval options)
        ++ exchange (State.this s) "GET" (getJob_path jobId None) None)).
Proof.
  intros Hk Hbefore Hr Ht. unfold waitForJob, bind.
  rewrite waitForJob_loop_shape.
  now rewrite (poll_loop_returns _ _ _ _ k _ s r Hk Hbefore Hr Ht).
Qed.

(** [waitForJob] when no poll ends the loop. *)
Lemma waitForJob_exhausts jobId options s :
  (forall i, (i < Z.to_nat (poll_maxAttempts options))%nat ->
     polls_on Json.asTranscribeResponse (getJob_path jobId None)
       (fun r => job_terminal (TranscribeResponse.status r)) s i) ->
  waitForJob jobId options s
  = (Thrown (job_exhausted jobId (poll_maxAttempts options)),
     state_after s
       (rounds (Z.to_nat (poll_maxAttempts options))
          (exchange (State.this s) "GET" (getJob_path jobId None) None)
          (poll_interval options))).
Proof.
  intros Hall. unfold waitForJob, bind.
  rewrite waitForJob_loop_shape.
  now rewrite (poll_loop_exhausts _ _ _ _ _ s Hall).
Qed.

Lemma waitForBatch_returns batchId options s (k : nat) r :
  (k < Z.to_nat (poll_maxAttempts options))%nat ->
  (forall i, (i < k)%nat ->
     polls_on Json.asBatchResponse ("/batch/" ++ batchId)
       (fun r => batch_terminal (BatchResponse.status r)) s i) ->
  batch_poll s batchId k = Returned r ->
  batch_terminal (BatchResponse.status r) = true ->
  waitForBatch batchId options s
  = (Returned r,
     state_after s
       (rounds k (exchange (State.this s) "GET" ("/batch/" ++ batchId) None)
               (poll_interval options)
        ++ exchange (State.this s) "GET" ("/batch/" ++ batchId) None)).
Proof.
  intros Hk Hbefore Hr Ht. unfold waitForBatch, bind.
  rewrite waitForBatch_loop_shape.
  now rewrite (poll_loop_returns _ _ _ _ k _ s r Hk Hbefore Hr Ht).
Qed.

Lemma waitForBatch_exhausts batchId options s :
  (forall i, (i < Z.to_nat (poll_maxAttempts options))%nat ->
     polls_on Json.asBatchResponse ("/batch/" ++ batchId)
       (fun r => batch_terminal (BatchResponse.status r)) s i) ->
  waitForBatch batchId options s
  = (Thrown (batch_exhausted batchId (poll_maxAttempts options)),
     state_after s
       (rounds (Z.to_nat (poll_maxAttempts options))
          (exchange (State.this s) "GET" ("/batch/" ++ batchId) None)
          (poll_interval options))).
Proof.
  intros Hall. unfold waitForBatch, bind.
  rewrite waitForBatch_loop_shape.
  now rewrite (poll_loop_exhausts _ _ _ _ _ s Hall).
Qed.





(* ------------------------------------------------------------------ *)
(** ** Construction *)

Lemma slashes_to_end_slashes (s : string) :
  slashes_to_end s = true -> s = slashes (String.length s).
Proof.
  induction s as [|c r IH]; cbn; [reflexivity|].
  intros H. apply andb_true_iff in H as [Hc Hr].
  apply Ascii.eqb_eq in Hc. subst c. now rewrite <- IH.
Qed.

Lemma replace_trailing_slashes_empty (s : string) :
  replace_trailing_slashes s = "" -> slashes_to_end s = true.
Proof.
  destruct s as [|c r]; [reflexivity|].
  cbn [replace_trailing_slashes matches_trailing_slashes].
  destruct (slashes_to_end (String c r)); [reflexivity | discriminate].
Qed.

(** What is cut off is a run of slashes. *)
Lemma replace_trailing_slashes_cuts (s : string) :
  exists k, s = replace_trailing_slashes s ++ slashes k.
Proof.
  induction s as [|c r [k IH]].
  - now exists 0%nat.
  - cbn [replace_trailing_slashes matches_trailing_slashes].
    destruct (slashes_to_end (String c r)) eqn:E.
    + exists (String.length (String c r)). now apply slashes_to_end_slashes.
    + exists k. cbn [append]. now rewrite <- IH.
Qed.

(** What is left does not end with a slash. *)
Lemma replace_trailing_slashes_clean (s : string) :
  ends_with_slash (replace_trailing_slashes s) = false.
Proof.
  induction s as [|c r IH]; [reflexivity|].
  cbn [replace_trailing_slashes matches_trailing_slashes].
  destruct (slashes_to_end (String c r)) eqn:E; [reflexivity|].
  cbn [ends_with_slash].
  destruct (replace_trailing_slashes r) as [|c' r'] eqn:Er; [|exact IH].
  apply replace_trailing_slashes_empty in Er.
  cbn [slashes_to_end] in E. rewrite Er, andb_true_r in E. exact E.
Qed.

(** A string that does not end with a slash is left as it is. *)
Lemma replace_trailing_slashes_id (s : string) :
  ends_with_slash s = false -> replace_trailing_slashes s = s.
Proof.
  induction s as [|c r IH]; [reflexivity|].
  cbn [replace_trailing_slashes matches_trailing_slashes ends_with_slash].
  destruct r as [|c' r'].
  - cbn. intros ->. reflexivity.
  - intros H. specialize (IH H).
    destruct (slashes_to_end (String c (String c' r'))) eqn:E.
    + exfalso. cbn [slashes_to_end] in E.
      apply andb_true_iff in E as [_ E].
      assert (Hempty : replace_trailing_slashes (String c' r') = "").
      { cbn [replace_trailing_slashes matches_trailing_slashes].
        cbn [slashes_to_end]. now rewrite E. }
      congruence.
    + now rewrite IH.
Qed.

Example strip_one : replace_trailing_slashes "https://x/" = "https://x".
Proof. reflexivity. Qed.

Example strip_many :
  replace_trailing_slashes "https://x/api///" = "https://x/api".
Proof. reflexivity. Qed.

Example strip_inner_kept :
  replace_trailing_slashes "https://x//api" = "https://x//api".
Proof. reflexivity. Qed.

(** Claim C5.  With a missing or empty [apiKey] the constructor throws, and
    a program that builds its client that way ends there, whatever it meant
    to invoke: the world is as it was, no call has been made.  With a
    non-empty [apiKey] the constructor returns a client that holds it. *)
Theorem constructor_requires_apiKey (options : YouTubeTranscriptOptions.t) :
  (YouTubeTranscriptOptions.apiKey options = None
   \/ YouTubeTranscriptOptions.apiKey options = Some "" ->
   constructor options
   = Thrown (new_Error
               "API key is required. Get one at https://youtubetranscript.dev")
   /\ forall ops w,
        session options ops w
        = (Thrown (new_Error
             "API key is required. Get one at https://youtubetranscript.dev"),
           w)) /\
  (forall key,
     YouTubeTranscriptOptions.apiKey options = Some key -> key <> "" ->
     exists client,
       constructor options = Returned client
       /\ YouTubeTranscript.apiKey client = key).
Proof.
  split.
  - intros H.
    assert (E : constructor options
                = Thrown (new_Error
                    "API key is required. Get one at https://youtubetranscript.dev")).
    { unfold constructor. now destruct H as [-> | ->]. }
    split; [exact E|]. intros ops w. unfold session. now rewrite E.
  - intros key Hkey Hne. unfold constructor. rewrite Hkey.
    destruct key as [|c r]; [congruence|].
    eexists. split; reflexivity.
Qed.

Lemma constructor_requires_apiKey_witness :
  (session
     (YouTubeTranscriptOptions.mk (Some "") (Some "https://x/") None)
     [GetJob "job_abc123" None]
     (World.mk (always (job_says completed)) [])
   = (Thrown (new_Error
        "API key is required. Get one at https://youtubetranscript.dev"),
      World.mk (always (job_says completed)) [])) /\
  (exists client,
     constructor (YouTubeTranscriptOptions.mk (Some "key_123") None None)
     = Returned client
     /\ YouTubeTranscript.apiKey client = "key_123").
Proof.
  split.
  - apply (proj1 (constructor_requires_apiKey
                    (YouTubeTranscriptOptions.mk (Some "") (Some "https://x/")
                       None))).
    right. reflexivity.
  - apply (proj2 (constructor_requires_apiKey
                    (YouTubeTranscriptOptions.mk (Some "key_123") None None))
             "key_123").
    + reflexivity.
    + discriminate.
Defined.

(** Claim C7.  A custom base URL given to the constructor loses all its
    trailing slashes: what the client keeps is the given URL up to a run of
    slashes cut from its end, and does not end with a slash.  The URL of
    every request is that kept base followed by the path. *)
Theorem baseUrl_trailing_slashes_stripped
    (options : YouTubeTranscriptOptions.t) (key base : string) :
  YouTubeTranscriptOptions.apiKey options = Some key -> key <> "" ->
  YouTubeTranscriptOptions.baseUrl options = Some base -> base <> "" ->
  exists client,
    constructor options = Returned client
    /\ (exists k, base = YouTubeTranscript.baseUrl client ++ slashes k)
    /\ ends_with_slash (YouTubeTranscript.baseUrl client) = false
    /\ forall (T : Type) (cast : Json.t -> T) method path body w,
         exists init,
           World.trace
             (State.world
                (snd (request cast method path body (State.mk client w))))
           = (World.trace w
              ++ [ SetAbortTimer (YouTubeTranscript.timeout client);
                   Fetch (YouTubeTranscript.baseUrl client ++ path) init;
                   ClearTimer ])%list.
Proof.
  intros Hkey Hne Hbase Hbne. unfold constructor. rewrite Hkey, Hbase.
  destruct key as [|c r]; [congruence|].
  destruct base as [|c' r']; [congruence|].
  eexists. split; [reflexivity|].
  cbn [YouTubeTranscript.baseUrl YouTubeTranscript.timeout or_string].
  split; [apply replace_trailing_slashes_cuts|].
  split; [apply replace_trailing_slashes_clean|].
  intros T cast method path body w. rewrite request_run.
  eexists. reflexivity.
Qed.

Lemma baseUrl_trailing_slashes_stripped_witness :
  exists client,
    constructor
      (YouTubeTranscriptOptions.mk (Some "key_123") (Some "https://x/") None)
    = Returned client
    /\ (exists k, "https://x/" = YouTubeTranscript.baseUrl client ++ slashes k)
    /\ ends_with_slash (YouTubeTranscript.baseUrl client) = false
    /\ forall (T : Type) (cast : Json.t -> T) method path body w,
         exists init,
           World.trace
             (State.world
                (snd (request cast method path body (State.mk client w))))
           = (World.trace w
              ++ [ SetAbortTimer (YouTubeTranscript.timeout client);
                   Fetch (YouTubeTranscript.baseUrl client ++ path) init;
                   ClearTimer ])%list.
Proof.
  apply (baseUrl_trailing_slashes_stripped
           (YouTubeTranscriptOptions.mk (Some "key_123") (Some "https://x/")
              None)
           "key_123" "https://x/");
    [reflexivity | discriminate | reflexivity | discriminate].
Defined.

(** The example of the claim: base [https://x/], path [/transcribe]. *)
Example transcribe_url_of_slashed_base :
  forall request net,
    exists client,
      constructor
        (YouTubeTranscriptOptions.mk (Some "key_123") (Some "https://x/") None)
      = Returned client
      /\ exists init,
           World.trace
             (State.world
                (snd (transcribe request (State.mk client (World.mk net [])))))
           = [ SetAbortTimer 30000;
               Fetch "https://x/transcribe" init;
               ClearTimer ].
Proof.
  intros request net. eexists. split; [reflexivity|].
  unfold transcribe, post. rewrite request_run. eexists. reflexivity.
Qed.

Example empty_baseUrl_is_default :
  constructor (YouTubeTranscriptOptions.mk (Some "key_123") (Some "") None)
  = Returned
      {| YouTubeTranscript.apiKey := "key_123";
         YouTubeTranscript.baseUrl := "https://youtubetranscript.dev/api/v2";
         YouTubeTranscript.timeout := 30000 |}.
Proof. reflexivity. Qed.

(* ------------------------------------------------------------------ *)
(** ** Options given as zero *)

Lemma or_number_nonzero (a : option Z) (b : Z) :
  b <> 0 -> or_number a b <> 0.
Proof.
  intros Hb. destruct a as [z|]; cbn; [|assumption].
  destruct (z =? 0) eqn:E; [assumption|]. now apply Z.eqb_neq.
Qed.

Lemma or_number_at_least_one (a : option Z) (b : Z) :
  1 <= b -> match a with Some z => 0 <= z | None => True end ->
  1 <= or_number a b.
Proof.
  intros Hb Ha. destruct a as [z|]; cbn; [|assumption].
  destruct (z =? 0) eqn:E; [assumption|]. apply Z.eqb_neq in E. lia.
Qed.

(** A loop with an iteration to run makes a call. *)
Lemma poll_loop_first_call {T} (cast : Json.t -> T) path terminal interval
    (n : nat) (s : State.t) :
  (fetches (World.trace (State.world s))
   < fetches (World.trace (State.world
        (snd (poll_loop cast path terminal interval (S n) s)))))%nat.
Proof.
  cbn [poll_loop]. unfold bind at 1. unfold get. rewrite request_run.
  destruct (answer cast (State.this s) path (upcoming s 0)) as [r|e].
  - destruct (terminal r).
    + cbn [ret snd]. rewrite fetches_state_after, fetches_exchange. lia.
    + assert (Hrest : appends_only
                (sleep interval ;; poll_loop cast path terminal interval n)).
      { unfold sleep. apply appends_only_bind; [auto with frame|].
        intros _. clear. induction n as [|n IH]; cbn [poll_loop];
          unfold sleep, get; auto 8 with frame. }
      destruct (Hrest (state_after s (exchange (State.this s) "GET" path None)))
        as [events ->].
      rewrite !fetches_state_after, fetches_exchange. lia.
  - cbn [snd]. rewrite fetches_state_after, fetches_exchange. lia.
Qed.

Lemma waitForJob_first_call jobId options s :
  1 <= poll_maxAttempts options ->
  (fetches (World.trace (State.world s))
   < fetches (World.trace (State.world (snd (waitForJob jobId options s)))))%nat.
Proof.
  intros H. unfold waitForJob. rewrite waitForJob_loop_shape.
  destruct (Z.to_nat (poll_maxAttempts options)) as [|n] eqn:E; [lia|].
  pose proof (poll_loop_first_call Json.asTranscribeResponse
                (getJob_path jobId None)
                (fun r => job_terminal (TranscribeResponse.status r))
                (poll_interval options) n s) as Hcall.
  unfold bind.
  destruct (poll_loop _ _ _ _ (S n) s) as [[[r|]|e] s1]; exact Hcall.
Qed.

Lemma waitForBatch_first_call batchId options s :
  1 <= poll_maxAttempts options ->
  (fetches (World.trace (State.world s))
   < fetches (World.trace (State.world (snd (waitForBatch batchId options s)))))%nat.
Proof.
  intros H. unfold waitForBatch. rewrite waitForBatch_loop_shape.
  destruct (Z.to_nat (poll_maxAttempts options)) as [|n] eqn:E; [lia|].
  pose proof (poll_loop_first_call Json.asBatchResponse
                ("/batch/" ++ batchId)
                (fun r => batch_terminal (BatchResponse.status r))
                (poll_interval options) n s) as Hcall.
  unfold bind.
  destruct (poll_loop _ _ _ _ (S n) s) as [[[r|]|e] s1]; exact Hcall.
Qed.

(** With a negative bound the loop has no iteration. *)
Lemma waitForJob_negative jobId options s :
  poll_maxAttempts options < 0 ->
  waitForJob jobId options s
  = (Thrown (job_exhausted jobId (poll_maxAttempts options)), s).
Proof.
  intros H. unfold waitForJob.
  destruct (Z.to_nat (poll_maxAttempts options)) eqn:E; [reflexivity | lia].
Qed.

Lemma waitForBatch_negative batchId options s :
  poll_maxAttempts options < 0 ->
  waitForBatch batchId options s
  = (Thrown (batch_exhausted batchId (poll_maxAttempts options)), s).
Proof.
  intros H. unfold waitForBatch.
  destruct (Z.to_nat (poll_maxAttempts options)) eqn:E; [reflexivity | lia].
Qed.

(** Claim C10, as stated, fails in its last part.  The claim ends by saying
    that polling cannot be configured to make zero attempts.  A negative
    [maxAttempts] is truthy, so [||] keeps it; the loop condition is false
    at once and [waitForJob] throws without a single [getJob] call. *)
Lemma polling_without_attempt :
  waitForJob "job_abc123"
    (Some {| PollOptions.interval := None;
             PollOptions.maxAttempts := Some (-1) |})
    (sample_state (always (job_says completed)))
  = (Thrown (new_Error "Job job_abc123 did not complete after -1 attempts"),
     sample_state (always (job_says completed)))
  /\ ~ (forall jobId options s,
          (fetches (World.trace (State.world s))
           < fetches (World.trace
                        (State.world (snd (waitForJob jobId options s)))))%nat).
Proof.
  split; [reflexivity|].
  intros H.
  specialize (H "job_abc123"
                (Some {| PollOptions.interval := None;
                         PollOptions.maxAttempts := Some (-1) |})
                (sample_state (always (job_says completed)))).
  vm_compute in H. lia.
Qed.

(** Claim C10, amended.  An option given as 0 is replaced by the default: a
    client built with [timeout: 0] has the timeout 30000, and a polling
    call with [interval: 0] or [maxAttempts: 0] behaves as one that leaves
    the option out, with 5000 ms and 60 attempts.  Hence the delay and the
    bound of the loop are never zero, and with a [maxAttempts] that is
    omitted or not negative at least one attempt is made.  A negative
    [maxAttempts] is kept as given, and then no attempt is made. *)
Theorem zero_option_is_default :
  (forall options client,
     YouTubeTranscriptOptions.timeout options = Some 0 ->
     constructor options = Returned client ->
     YouTubeTranscript.timeout client = 30000) /\
  (forall m,
     poll_interval (Some (PollOptions.mk (Some 0) m)) = 5000
     /\ (forall jobId,
           waitForJob jobId (Some (PollOptions.mk (Some 0) m))
           = waitForJob jobId (Some (PollOptions.mk None m)))
     /\ (forall batchId,
           waitForBatch batchId (Some (PollOptions.mk (Some 0) m))
           = waitForBatch batchId (Some (PollOptions.mk None m)))) /\
  (forall i,
     poll_maxAttempts (Some (PollOptions.mk i (Some 0))) = 60
     /\ (forall jobId,
           waitForJob jobId (Some (PollOptions.mk i (Some 0)))
           = waitForJob jobId (Some (PollOptions.mk i None)))
     /\ (forall batchId,
           waitForBatch batchId (Some (PollOptions.mk i (Some 0)))
           = waitForBatch batchId (Some (PollOptions.mk i None)))) /\
  (forall options,
     poll_interval options <> 0 /\ poll_maxAttempts options <> 0) /\
  (forall id options s,
     match options with
     | Some o =>
         match PollOptions.maxAttempts o with
         | Some m => 0 <= m
         | None => True
         end
     | None => True
     end ->
     (fetches (World.trace (State.world s))
      < fetches (World.trace (State.world (snd (waitForJob id options s)))))%nat
     /\ (fetches (World.trace (State.world s))
         < fetches (World.trace
                      (State.world (snd (waitForBatch id options s)))))%nat) /\
  (forall id options s,
     poll_maxAttempts options < 0 ->
     snd (waitForJob id options s) = s
     /\ snd (waitForBatch id options s) = s).
Proof.
  split; [|split; [|split; [|split; [|split]]]].
  - intros options client Ht. unfold constructor.
    destruct (YouTubeTranscriptOptions.apiKey options) as [[|c r]|];
      try discriminate.
    intros [= <-]. cbn [YouTubeTranscript.timeout]. now rewrite Ht.
  - intros m. repeat split.
  - intros i. repeat split.
  - intros options. unfold poll_interval, poll_maxAttempts.
    split; apply or_number_nonzero; discriminate.
  - intros id options s Hm.
    assert (H1 : 1 <= poll_maxAttempts options).
    { unfold poll_maxAttempts. apply or_number_at_least_one; [lia|].
      destruct options as [o|]; [|exact I]. exact Hm. }
    split; [now apply waitForJob_first_call
           | now apply waitForBatch_first_call].
  - intros id options s Hneg.
    now rewrite waitForJob_negative, waitForBatch_negative.
Qed.

Lemma zero_option_is_default_witness :
  YouTubeTranscript.timeout
    {| YouTubeTranscript.apiKey := "key_123";
       YouTubeTranscript.baseUrl := "https://youtubetranscript.dev/api/v2";
       YouTubeTranscript.timeout := 30000 |} = 30000
  /\ lt
       (fetches (World.trace (State.world
                   (sample_state (always (job_says processing))))))
       (fetches (World.trace (State.world
          (snd (waitForJob "job_abc123"
                  (Some (PollOptions.mk (Some 0) (Some 0)))
                  (sample_state (always (job_says processing))))))))
  /\ snd (waitForJob "job_abc123"
            (Some (PollOptions.mk None (Some (-1))))
            (sample_state (always (job_says processing))))
     = sample_state (always (job_says processing)).
Proof.
  pose proof zero_option_is_default as (Htimeout & _ & _ & _ & Hcall & Hneg).
  split; [|split].
  - apply (Htimeout
             (YouTubeTranscriptOptions.mk (Some "key_123") None (Some 0)));
      reflexivity.
  - refine (proj1 (Hcall "job_abc123"
                     (Some (PollOptions.mk (Some 0) (Some 0)))
                     (sample_state (always (job_says processing))) _)).
    cbn. lia.
  - exact (proj1 (Hneg "job_abc123" (Some (PollOptions.mk None (Some (-1))))
                    (sample_state (always (job_says processing))) eq_refl)).
Defined.

(** With both options given as 0 and a job that stays [processing], the
    loop makes its 60 calls, each followed by a delay of 5000 ms. *)
Example polling_with_zero_options :
  let s' := snd (waitForJob "job_abc123"
                   (Some (PollOptions.mk (Some 0) (Some 0)))
                   (sample_state (always (job_says processing)))) in
  fetches (World.trace (State.world s')) = 60%nat
  /\ delays (World.trace (State.world s')) = repeat 5000 60.
Proof. vm_compute. split; reflexivity. Qed.

(** A client built with [timeout: 0] arms its abort timer with 30000 ms. *)
Example timer_of_zero_timeout :
  exists client,
    constructor (YouTubeTranscriptOptions.mk (Some "key_123") None (Some 0))
    = Returned client
    /\ abort_timers
         (World.trace
            (State.world
               (snd (getBatch "batch_abc123"
                       (State.mk client (World.mk (always TimerFires) []))))))
       = [30000].
Proof. eexists. split; reflexivity. Qed.

(* ------------------------------------------------------------------ *)
(** ** Failures outside the taxonomy *)



(** A timeout too large for plain digits is named as the language prints
    it. *)
Example timeout_message_of_large_timeout :
  timeout_message "/transcribe" (10 ^ 21)
  = "Request to /transcribe timed out after 1e+21ms"
  /\ timeout_message "/transcribe" (2 ^ 60)
     = "Request to /transcribe timed out after 1152921504606847000ms".
Proof. vm_compute. split; reflexivity. Qed.

(** A response with an error status is thrown as an instance of the
    taxonomy, and the [catch] block lets it through. *)
Example insufficient_credits_is_typed :
  exists e s',
    transcribe
      {| TranscribeRequest.video := "dQw4w9WgXcQ";
         TranscribeRequest.language := None;
         TranscribeRequest.source := None;
         TranscribeRequest.allow_asr := None;
         TranscribeRequest.format := None;
         TranscribeRequest.webhook_url := None |}
      (sample_state
         (always (Responds 402 no_headers
                    (Some (json_of_transcribe
                             (sample_transcribe_response failed))))))
    = (Thrown (Typed e), s')
    /\ variant_of e = InsufficientCredits
    /\ YouTubeTranscriptError.message e = "Too many requests"
    /\ YouTubeTranscriptError.errorCode e = "rate_limited".
Proof.
  do 2 eexists. split; [vm_compute; reflexivity|]. repeat split.
Qed.

(* ------------------------------------------------------------------ *)
(** ** The batch operation *)

(** Claim C8.  [batch] hands its request to [/batch] as it got it: whatever
    the list of video ids, it makes one POST to the base URL followed by
    [/batch] whose body is the serialized request, and it ends as the
    network's answer to that call decides.  No list, long or empty, makes
    a difference to how the call ends. *)
Theorem batch_passes_request_through (request : BatchRequest.t)
    (s : State.t) :
  let c := State.this s in
  batch request s
  = (answer Json.asBatchResponse c "/batch" (upcoming s 0),
     state_after s
       [ SetAbortTimer (YouTubeTranscript.timeout c);
         Fetch (YouTubeTranscript.baseUrl c ++ "/batch")
           {| RequestInit.method := "POST";
              RequestInit.headers :=
                request_headers (YouTubeTranscript.apiKey c);
              RequestInit.body :=
                Some (JSON_stringify (BatchBody request)) |};
         ClearTimer ])
  /\ (forall request', fst (batch request' s) = fst (batch request s))
  /\ (forall status headers data,
        upcoming s 0 = Responds status headers (Some data) ->
        ok status = true ->
        fst (batch request s) = Returned (Json.asBatchResponse data)).
Proof.
  cbn zeta. unfold batch, post. split; [|split].
  - now rewrite request_run.
  - intros request'. now rewrite !request_run.
  - intros status headers data Hup Hok.
    rewrite request_run. unfold answer. cbn [fst]. now rewrite Hup, Hok.
Qed.

Lemma batch_passes_request_through_witness :
  fst (batch
         (BatchRequest.mk (repeat "dQw4w9WgXcQ" 101) None None None None None)
         (sample_state (always (batch_says batch_processing []))))
  = Returned (sample_batch_response batch_processing [])
  /\ fst (batch (BatchRequest.mk [] None None None None None)
            (sample_state (always (batch_says batch_processing []))))
     = Returned (sample_batch_response batch_processing []).
Proof.
  split.
  - exact (proj2 (proj2 (batch_passes_request_through
                           (BatchRequest.mk (repeat "dQw4w9WgXcQ" 101)
                              None None None None None)
                           (sample_state
                              (always (batch_says batch_processing [])))))
             200 no_headers
             (json_of_batch (sample_batch_response batch_processing []))
             eq_refl eq_refl).
  - exact (proj2 (proj2 (batch_passes_request_through
                           (BatchRequest.mk [] None None None None None)
                           (sample_state
                              (always (batch_says batch_processing [])))))
             200 no_headers
             (json_of_batch (sample_batch_response batch_processing []))
             eq_refl eq_refl).
Defined.

(* ------------------------------------------------------------------ *)
(** ** The configuration *)

(** Claim C9.  Whatever methods are invoked on a client, in whatever order
    and however each ends, the client's [apiKey], [baseUrl] and [timeout]
    afterwards are those it had before the first of them. *)
Theorem configuration_is_fixed (ops : list Op) (s : State.t) :
  let s' := snd (invoke_all ops s) in
  YouTubeTranscript.apiKey (State.this s')
  = YouTubeTranscript.apiKey (State.this s)
  /\ YouTubeTranscript.baseUrl (State.this s')
     = YouTubeTranscript.baseUrl (State.this s)
  /\ YouTubeTranscript.timeout (State.this s')
     = YouTubeTranscript.timeout (State.this s).
Proof.
  cbn zeta. destruct (invoke_all_appends ops s) as [events ->].
  repeat split.
Qed.

(* ------------------------------------------------------------------ *)
(** * Further properties *)

(** ** What an error carries *)

(** The five statuses with a class of their own, and the rest. *)
Lemma createError_cases (status : Z) (body : ErrorResponse.t)
    (headers : Headers.t) :
  (status = 400 /\ createError status body headers
                   = new_InvalidRequestError body)
  \/ (status = 401 /\ createError status body headers
                      = new_AuthenticationError body)
  \/ (status = 402 /\ createError status body headers
                      = new_InsufficientCreditsError body)
  \/ (status = 404 /\ createError status body headers
                      = new_NoCaptionsError body)
  \/ (status = 429 /\ exists r, createError status body headers
                                = new_RateLimitError body r)
  \/ (status <> 429 /\ createError status body headers
                       = YouTubeTranscriptError.new status body).
Proof.
  unfold createError.
  destruct (status =? 400) eqn:E400;
    [apply Z.eqb_eq in E400; now left|right].
  destruct (status =? 401) eqn:E401;
    [apply Z.eqb_eq in E401; now left|right].
  destruct (status =? 402) eqn:E402;
    [apply Z.eqb_eq in E402; now left|right].
  destruct (status =? 404) eqn:E404;
    [apply Z.eqb_eq in E404; now left|right].
  destruct (status =? 429) eqn:E429;
    [apply Z.eqb_eq in E429; left; split; [assumption|now eexists]|right].
  apply Z.eqb_neq in E429. now split.
Qed.

Lemma createError_status (status : Z) (body : ErrorResponse.t)
    (headers : Headers.t) :
  YouTubeTranscriptError.status (createError status body headers) = status.
Proof.
  destruct (createError_cases status body headers)
    as [[-> ->]|[[-> ->]|[[-> ->]|[[-> ->]|[[-> [r ->]]|[_ ->]]]]]];
    reflexivity.
Qed.

(** The message of every error the mapper builds is the server's message,
    and the server's error code when that message is empty. *)
Theorem error_message_falls_back_to_code (status : Z)
    (body : ErrorResponse.t) (headers : Headers.t) :
  YouTubeTranscriptError.message (createError status body headers)
  = if (ErrorResponse.message body =? "")%string
    then ErrorResponse.error body
    else ErrorResponse.message body.
Proof.
  assert (E : or_string (Some (ErrorResponse.message body))
                (ErrorResponse.error body)
              = if (ErrorResponse.message body =? "")%string
                then ErrorResponse.error body
                else ErrorResponse.message body).
  { now destruct (ErrorResponse.message body). }
  rewrite <- E.
  destruct (createError_cases status body headers)
    as [[-> ->]|[[-> ->]|[[-> ->]|[[-> ->]|[[-> [r ->]]|[_ ->]]]]]];
    reflexivity.
Qed.

(** Only a 429 gets a retry-after: for every other status the field is
    absent, whatever [Retry-After] header the response carries. *)
Theorem retryAfter_only_on_429 (status : Z) (body : ErrorResponse.t)
    (headers : Headers.t) :
  status <> 429 ->
  YouTubeTranscriptError.retryAfter (createError status body headers) = None.
Proof.
  intros Hne.
  destruct (createError_cases status body headers)
    as [[-> ->]|[[-> ->]|[[-> ->]|[[-> ->]|[[-> _]|[_ ->]]]]]];
    try reflexivity.
  congruence.
Qed.

Lemma retryAfter_only_on_429_witness :
  YouTubeTranscriptError.retryAfter
    (createError 503 sample_error_body
       (headers_with_retry_after (Some "120"))) = None.
Proof.
  apply (retryAfter_only_on_429 503 sample_error_body
           (headers_with_retry_after (Some "120"))).
  discriminate.
Defined.

(** ** How one request ends *)

Lemma ok_iff (status : Z) : ok status = true <-> 200 <= status <= 299.
Proof. unfold ok. rewrite andb_true_iff, !Z.leb_le. reflexivity. Qed.

Lemma ok_false_iff (status : Z) :
  ok status = false <-> status < 200 \/ 299 < status.
Proof.
  unfold ok. rewrite andb_false_iff, !Z.leb_gt. reflexivity.
Qed.

(** A response with a JSON body is returned, read as the expected type,
    when its status lies in 200..299.  With any other status the request
    throws: for a body other than [null], the typed error the mapper builds
    from the body, whose status is that of the response; for the body
    [null], the [TypeError] of reading a property of [null], which is not
    typed. *)
Theorem request_decides_by_status {T} (cast : Json.t -> T)
    (method path : string) (body : option RequestBody) (s : State.t)
    (status : Z) (headers : Headers.t) (data : Json.t) :
  upcoming s 0 = Responds status headers (Some data) ->
  (200 <= status <= 299 ->
   fst (request cast method path body s) = Returned (cast data)) /\
  (status < 200 \/ 299 < status -> Json.isNull data = false ->
   exists e,
     fst (request cast method path body s) = Thrown (Typed e)
     /\ e = createError status (Json.asErrorResponse data) headers
     /\ YouTubeTranscriptError.status e = status
     /\ YouTubeTranscriptError.errorCode e
        = ErrorResponse.error (Json.asErrorResponse data)) /\
  (status < 200 \/ 299 < status -> Json.isNull data = true ->
   exists e,
     fst (request cast method path body s) = Thrown e
     /\ error_name e = "TypeError"
     /\ instanceof_YouTubeTranscriptError e = false).
Proof.
  intros Hup. rewrite request_run. cbn [fst]. unfold answer. rewrite Hup.
  split; [|split].
  - intros Hok. apply ok_iff in Hok. now rewrite Hok.
  - intros Hno Hnull. apply ok_false_iff in Hno. rewrite Hno, Hnull.
    eexists. split; [reflexivity|]. split; [reflexivity|].
    split; [apply createError_status|].
    destruct (createError_cases status (Json.asErrorResponse data) headers)
      as [[-> ->]|[[-> ->]|[[-> ->]|[[-> ->]|[[-> [r ->]]|[_ ->]]]]]];
      reflexivity.
  - intros Hno Hnull. apply ok_false_iff in Hno. rewrite Hno, Hnull.
    eexists. repeat split.
Qed.

Lemma request_decides_by_status_witness :
  fst (request Json.asTranscribeResponse "GET" "/jobs/job_abc123" None
         (sample_state (always (job_says completed))))
  = Returned (sample_transcribe_response completed)
  /\ (exists e,
        fst (request Json.asTranscribeResponse "GET" "/jobs/job_abc123" None
               (sample_state
                  (always (Responds 500 no_headers
                             (Some (json_of_transcribe
                                      (sample_transcribe_response failed)))))))
        = Thrown (Typed e)
        /\ e = createError 500 sample_error_body no_headers
        /\ YouTubeTranscriptError.status e = 500
        /\ YouTubeTranscriptError.errorCode e = "rate_limited")
  /\ exists e,
       fst (request Json.asTranscribeResponse "GET" "/jobs/job_abc123" None
              (sample_state (always (Responds 500 no_headers
                                       (Some json_null)))))
       = Thrown e
       /\ error_name e = "TypeError"
       /\ instanceof_YouTubeTranscriptError e = false.
Proof.
  split; [|split].
  - refine (proj1 (request_decides_by_status Json.asTranscribeResponse
                     "GET" "/jobs/job_abc123" None
                     (sample_state (always (job_says completed)))
                     200 no_headers
                     (json_of_transcribe (sample_transcribe_response completed))
                     eq_refl) _).
    lia.
  - refine (proj1 (proj2 (request_decides_by_status Json.asTranscribeResponse
                     "GET" "/jobs/job_abc123" None
                     (sample_state
                        (always (Responds 500 no_headers
                                   (Some (json_of_transcribe
                                            (sample_transcribe_response
                                               failed))))))
                     500 no_headers
                     (json_of_transcribe (sample_transcribe_response failed))
                     eq_refl)) _ eq_refl).
    right. lia.
  - refine (proj2 (proj2 (request_decides_by_status Json.asTranscribeResponse
                     "GET" "/jobs/job_abc123" None
                     (sample_state (always (Responds 500 no_headers
                                              (Some json_null))))
                     500 no_headers json_null eq_refl)) _ eq_refl).
    right. lia.
Defined.

(** A typed error is thrown for nothing but a response with a JSON body and
    a status outside 200..299: neither a timeout, nor a transport failure,
    nor a body that is not JSON surfaces as an instance of the taxonomy,
    and no typed error carries a status of 200..299. *)
Theorem typed_error_only_from_error_response {T} (cast : Json.t -> T)
    (method path : string) (body : option RequestBody) (s : State.t)
    (e : YouTubeTranscriptError.t) :
  fst (request cast method path body s) = Thrown (Typed e) ->
  exists status headers data,
    upcoming s 0 = Responds status headers (Some data)
    /\ (status < 200 \/ 299 < status)
    /\ e = createError status (Json.asErrorResponse data) headers
    /\ YouTubeTranscriptError.status e = status.
Proof.
  rewrite request_run. cbn [fst]. unfold answer.
  destruct (upcoming s 0) as [status headers [data|]| |name message].
  - destruct (ok status) eqn:Hok; [discriminate|].
    destruct (Json.isNull data); [discriminate|].
    intros [= <-]. exists status, headers, data.
    split; [reflexivity|]. split; [now apply ok_false_iff|].
    split; [reflexivity | apply createError_status].
  - discriminate.
  - discriminate.
  - destruct (name =? "AbortError")%string; discriminate.
Qed.

Lemma typed_error_only_from_error_response_witness :
  exists status headers data,
    upcoming (sample_state
                (always (Responds 402 no_headers
                           (Some (json_of_transcribe
                                    (sample_transcribe_response failed))))))
      0 = Responds status headers (Some data)
    /\ (status < 200 \/ 299 < status)
    /\ createError 402 sample_error_body no_headers
       = createError status (Json.asErrorResponse data) headers
    /\ YouTubeTranscriptError.status
         (createError 402 sample_error_body no_headers) = status.
Proof.
  apply (typed_error_only_from_error_response Json.asTranscribeResponse
           "POST" "/transcribe" None
           (sample_state
              (always (Responds 402 no_headers
                         (Some (json_of_transcribe
                                  (sample_transcribe_response failed))))))
           (createError 402 sample_error_body no_headers)).
  reflexivity.
Defined.

(** A response whose body is not JSON makes the request throw the parser's
    [SyntaxError], whatever its status: an error page sent with a 5xx is
    not turned into a typed error, and a 2xx without JSON is no success. *)
Theorem non_json_body_is_syntax_error {T} (cast : Json.t -> T)
    (method path : string) (body : option RequestBody) (s : State.t)
    (status : Z) (headers : Headers.t) :
  upcoming s 0 = Responds status headers None ->
  exists e,
    fst (request cast method path body s) = Thrown e
    /\ error_name e = "SyntaxError"
    /\ instanceof_YouTubeTranscriptError e = false.
Proof.
  intros Hup. rewrite request_run. cbn [fst]. unfold answer. rewrite Hup.
  eexists. repeat split.
Qed.

Lemma non_json_body_is_syntax_error_witness :
  exists e,
    fst (request Json.asBatchResponse "GET" "/batch/batch_abc123" None
           (sample_state (always (Responds 502 no_headers None))))
    = Thrown e
    /\ error_name e = "SyntaxError"
    /\ instanceof_YouTubeTranscriptError e = false.
Proof.
  exact (non_json_body_is_syntax_error Json.asBatchResponse "GET"
           "/batch/batch_abc123" None
           (sample_state (always (Responds 502 no_headers None)))
           502 no_headers eq_refl).
Defined.

(** A transport failure reaches the caller as the very error [fetch]
    rejected with, not wrapped and not typed; the one exception is an error
    named [AbortError], which is reported as a timeout of the request. *)
Theorem transport_failure_passes_through {T} (cast : Json.t -> T)
    (method path : string) (body : option RequestBody) (s : State.t)
    (name message : string) :
  upcoming s 0 = Rejects name message ->
  (name <> "AbortError" ->
   fst (request cast method path body s) = Thrown (Untyped name message)) /\
  (name = "AbortError" ->
   fst (request cast method path body s)
   = Thrown (new_Error
               ("Request to " ++ path ++ " timed out after "
                  ++ string_of_number
                       (YouTubeTranscript.timeout (State.this s))
                  ++ "ms"))).
Proof.
  intros Hup. rewrite request_run. cbn [fst]. unfold answer. rewrite Hup.
  split.
  - intros Hne. apply String.eqb_neq in Hne. now rewrite Hne.
  - intros ->. reflexivity.
Qed.

Lemma transport_failure_passes_through_witness :
  fst (request Json.asTranscribeResponse "POST" "/transcribe" None
         (sample_state (always (Rejects "TypeError" "fetch failed"))))
  = Thrown (Untyped "TypeError" "fetch failed").
Proof.
  refine (proj1 (transport_failure_passes_through Json.asTranscribeResponse
                   "POST" "/transcribe" None
                   (sample_state (always (Rejects "TypeError" "fetch failed")))
                   "TypeError" "fetch failed" eq_refl) _).
  discriminate.
Defined.

(** ** The calls a client makes *)

Lemma steps_of_nil c : steps_of c [].
Proof. exists []. split; [reflexivity | constructor]. Qed.

Lemma steps_of_app c t u :
  steps_of c t -> steps_of c u -> steps_of c (t ++ u).
Proof.
  intros (bt & -> & Ht) (bu & -> & Hu). exists (bt ++ bu)%list.
  split; [now rewrite concat_app | now apply Forall_app].
Qed.

Lemma steps_of_block c block : step_of c block -> steps_of c block.
Proof.
  intros H. exists [block]. split; [cbn; now rewrite app_nil_r|].
  constructor; [exact H | constructor].
Qed.

Lemma adds_steps_ret {A} (a : A) : adds_steps (ret a).
Proof.
  intros s. exists []. split; [cbn; now rewrite state_after_nil|].
  apply steps_of_nil.
Qed.

Lemma adds_steps_throw {A} (e : JsError) : adds_steps (@throw A e).
Proof.
  intros s. exists []. split; [cbn; now rewrite state_after_nil|].
  apply steps_of_nil.
Qed.

Lemma adds_steps_sleep (ms : Z) : adds_steps (sleep ms).
Proof.
  intros s. exists [Delay ms]. split; [reflexivity|].
  apply steps_of_block. left. now exists ms.
Qed.

Lemma adds_steps_bind {A B} (m : M A) (k : A -> M B) :
  adds_steps m -> (forall a, adds_steps (k a)) -> adds_steps (bind m k).
Proof.
  intros Hm Hk s. unfold bind.
  destruct (Hm s) as (t & Ht & Hst).
  destruct (m s) as [[a|e] s1]; cbn in Ht; subst.
  - destruct (Hk a (state_after s t)) as (u & Hu & Hsu).
    exists (t ++ u)%list. split; [now rewrite Hu, state_after_app|].
    now apply steps_of_app.
  - now exists t.
Qed.

Lemma adds_steps_get {T} (cast : Json.t -> T) path :
  adds_steps (get cast path).
Proof.
  intros s. unfold get. rewrite request_run. eexists. split; [reflexivity|].
  apply steps_of_block. right. left. now exists path.
Qed.

Lemma adds_steps_post {T} (cast : Json.t -> T) path body :
  adds_steps (post cast path body).
Proof.
  intros s. unfold post. rewrite request_run. eexists. split; [reflexivity|].
  apply steps_of_block. right. right. now exists path, body.
Qed.

Lemma adds_steps_poll_loop {T} (cast : Json.t -> T) path terminal interval n :
  adds_steps (poll_loop cast path terminal interval n).
Proof.
  induction n as [|n IH]; cbn [poll_loop]; [apply adds_steps_ret|].
  apply adds_steps_bind; [apply adds_steps_get|]. intros r.
  destruct (terminal r); [apply adds_steps_ret|].
  apply adds_steps_bind; [apply adds_steps_sleep | intros _; exact IH].
Qed.

Lemma adds_steps_invoke (op : Op) : adds_steps (invoke op).
Proof.
  assert (Hret : forall (A : Type) (wrap : A -> OpResult) (m : M A),
             adds_steps m -> adds_steps (r <- m ;; ret (wrap r))).
  { intros A wrap m Hm. apply adds_steps_bind; [exact Hm|].
    intros r. apply adds_steps_ret. }
  destruct op; cbn [invoke]; apply Hret.
  - unfold transcribe. apply adds_steps_post.
  - unfold getTranscript, transcribe. apply adds_steps_post.
  - unfold batch. apply adds_steps_post.
  - unfold getJob. apply adds_steps_get.
  - unfold getBatch. apply adds_steps_get.
  - unfold waitForJob. rewrite waitForJob_loop_shape.
    apply adds_steps_bind; [apply adds_steps_poll_loop|].
    intros [r|]; [apply adds_steps_ret | apply adds_steps_throw].
  - unfold waitForBatch. rewrite waitForBatch_loop_shape.
    apply adds_steps_bind; [apply adds_steps_poll_loop|].
    intros [r|]; [apply adds_steps_ret | apply adds_steps_throw].
Qed.

Lemma abort_timers_app (t u : list Event) :
  abort_timers (t ++ u) = (abort_timers t ++ abort_timers u)%list.
Proof. unfold abort_timers. apply flat_map_app. Qed.

Lemma clears_app (t u : list Event) :
  clears (t ++ u) = (clears t + clears u)%nat.
Proof. unfold clears. now rewrite filter_app, length_app. Qed.

(** In a trace made of whole steps every call has its timer, armed with the
    client's timeout and cleared again. *)
Lemma steps_of_balance c events :
  steps_of c events ->
  abort_timers events = repeat (YouTubeTranscript.timeout c) (fetches events)
  /\ clears events = fetches events.
Proof.
  intros (blocks & -> & Hall).
  induction Hall as [|b blocks Hb _ [IH1 IH2]]; [now split|].
  cbn [concat]. rewrite abort_timers_app, clears_app, fetches_app, IH1, IH2.
  destruct Hb as [[ms ->]|[[path ->]|(path & body & ->)]];
    split; reflexivity.
Qed.

(** Every call in such a trace goes to the client's base URL followed by a
    path, with the client's key as bearer token. *)
Lemma steps_of_calls c events :
  steps_of c events ->
  Forall (fun e =>
            match e with
            | Fetch url init =>
                (exists path, url = YouTubeTranscript.baseUrl c ++ path)
                /\ RequestInit.headers init
                   = [ ("Authorization",
                        "Bearer " ++ YouTubeTranscript.apiKey c);
                       ("Content-Type", "application/json");
                       ("User-Agent", "youtube-transcript-sdk/1.0.0") ]
                /\ (RequestInit.method init = "GET"
                    /\ RequestInit.body init = None
                    \/ RequestInit.method init = "POST"
                       /\ RequestInit.body init <> None)
            | _ => True
            end) events.
Proof.
  intros (blocks & -> & Hall).
  induction Hall as [|b blocks Hb _ IH]; [constructor|].
  cbn [concat]. apply Forall_app. split; [|exact IH].
  destruct Hb as [[ms ->]|[[path ->]|(path & body & ->)]].
  - constructor; [exact I | constructor].
  - unfold exchange.
    constructor; [exact I|]. constructor; [|constructor; [exact I|constructor]].
    cbn. split; [now exists path|].
    split; [reflexivity | left; now split].
  - unfold exchange.
    constructor; [exact I|]. constructor; [|constructor; [exact I|constructor]].
    cbn. split; [now exists path|].
    split; [reflexivity | right; split; [reflexivity | discriminate]].
Qed.

Lemma invoke_all_adds_steps (ops : list Op) (s : State.t) :
  exists events,
    snd (invoke_all ops s) = state_after s events
    /\ steps_of (State.this s) events.
Proof.
  revert s. induction ops as [|op ops IH]; intros s; cbn [invoke_all].
  - exists []. split; [cbn; now rewrite state_after_nil | apply steps_of_nil].
  - destruct (adds_steps_invoke op s) as (t & Ht & Hst).
    destruct (invoke op s) as [r s1]. cbn in Ht. subst s1.
    destruct (IH (state_after s t)) as (u & Hu & Hsu).
    destruct (invoke_all ops (state_after s t)) as [rs s2]. cbn in Hu |- *.
    exists (t ++ u)%list. split; [now rewrite Hu, state_after_app|].
    now apply steps_of_app.
Qed.

(** Whatever methods are invoked, and however each ends, every call made
    goes to the client's base URL followed by a path, carries the three
    headers with the client's key as bearer token, and is a GET without a
    body or a POST with one. *)
Theorem every_call_is_authenticated (ops : list Op) (s : State.t) :
  exists events,
    snd (invoke_all ops s) = state_after s events
    /\ Forall (fun e =>
                 match e with
                 | Fetch url init =>
                     (exists path,
                        url = YouTubeTranscript.baseUrl (State.this s) ++ path)
                     /\ RequestInit.headers init
                        = [ ("Authorization",
                             "Bearer "
                               ++ YouTubeTranscript.apiKey (State.this s));
                            ("Content-Type", "application/json");
                            ("User-Agent", "youtube-transcript-sdk/1.0.0") ]
                     /\ (RequestInit.method init = "GET"
                         /\ RequestInit.body init = None
                         \/ RequestInit.method init = "POST"
                            /\ RequestInit.body init <> None)
                 | _ => True
                 end) events.
Proof.
  destruct (invoke_all_adds_steps ops s) as (events & Hs & Hsteps).
  exists events. split; [exact Hs | now apply steps_of_calls].
Qed.

(** Whatever methods are invoked, and however each ends, every call has had
    its abort timer armed with the client's timeout, and every timer armed
    has been cleared: no timer outlives its request. *)
Theorem every_timer_is_cleared (ops : list Op) (s : State.t) :
  exists events,
    snd (invoke_all ops s) = state_after s events
    /\ abort_timers events
       = repeat (YouTubeTranscript.timeout (State.this s)) (fetches events)
    /\ clears events = fetches events.
Proof.
  destruct (invoke_all_adds_steps ops s) as (events & Hs & Hsteps).
  exists events. split; [exact Hs | now apply steps_of_balance].
Qed.

(** Each of the five methods that do not poll makes exactly one call per
    invocation: whether it returns or throws, and whatever the network
    does, the trace grows by one timer armed, one call and the timer
    cleared. *)
Theorem one_call_per_invocation (op : Op) (s : State.t) :
  is_polling op = false ->
  exists url init,
    World.trace (State.world (snd (invoke op s)))
    = (World.trace (State.world s)
       ++ [ SetAbortTimer (YouTubeTranscript.timeout (State.this s));
            Fetch url init;
            ClearTimer ])%list
    /\ State.this (snd (invoke op s)) = State.this s.
Proof.
  intros Hop.
  destruct op; try discriminate Hop; cbn [invoke];
    unfold getTranscript, transcribe, batch, getJob, getBatch, post, get, bind;
    rewrite request_run;
    destruct (answer _ _ _ _); do 2 eexists; split; reflexivity.
Qed.

Lemma one_call_per_invocation_witness :
  exists url init,
    World.trace
      (State.world
         (snd (invoke (GetBatch "batch_abc123")
                 (sample_state (always TimerFires)))))
    = ([] ++ [ SetAbortTimer 30000; Fetch url init; ClearTimer ])%list
    /\ State.this
         (snd (invoke (GetBatch "batch_abc123")
                 (sample_state (always TimerFires))))
       = sample_client.
Proof.
  exact (one_call_per_invocation (GetBatch "batch_abc123")
           (sample_state (always TimerFires)) eq_refl).
Defined.

(** [transcribe] posts the request it was given to [/transcribe] and ends
    as the answer decides; [getTranscript] does the same with a request
    that holds the video and the language and nothing else. *)
Theorem transcribe_passes_request_through (request : TranscribeRequest.t)
    (video : string) (language : option string) (s : State.t) :
  let c := State.this s in
  let sent (r : TranscribeRequest.t) :=
    state_after s
      [ SetAbortTimer (YouTubeTranscript.timeout c);
        Fetch (YouTubeTranscript.baseUrl c ++ "/transcribe")
          {| RequestInit.method := "POST";
             RequestInit.headers :=
               request_headers (YouTubeTranscript.apiKey c);
             RequestInit.body := Some (JSON_stringify (TranscribeBody r)) |};
        ClearTimer ] in
  transcribe request s
  = (answer Json.asTranscribeResponse c "/transcribe" (upcoming s 0),
     sent request)
  /\ getTranscript video language s
     = (answer Json.asTranscribeResponse c "/transcribe" (upcoming s 0),
        sent {| TranscribeRequest.video := video;
                TranscribeRequest.language := language;
                TranscribeRequest.source := None;
                TranscribeRequest.allow_asr := None;
                TranscribeRequest.format := None;
                TranscribeRequest.webhook_url := None |}).
Proof.
  cbn zeta. unfold getTranscript, transcribe, post.
  now rewrite !request_run.
Qed.

(** The path of [getJob] is [/jobs/] and the job id, followed by a query
    only when a flag is explicitly true: the query then names the true
    flags, in the order segments, paragraphs, words.  A flag given as
    [false] counts as one left out, and so do options without any flag. *)
Theorem getJob_query_names_true_flags (jobId : string)
    (options : option GetJobOptions.t) :
  getJob_path jobId options
  = "/jobs/" ++ jobId
      ++ match flags_on options with
         | [] => ""
         | names => "?" ++ query_of names
         end.
Proof.
  destruct options as [[[[]|] [[]|] [[]|]]|]; reflexivity.
Qed.

Example getJob_path_all_flags :
  getJob_path "job_abc123"
    (Some (GetJobOptions.mk (Some true) (Some true) (Some true)))
  = "/jobs/job_abc123?include_segments=true&include_paragraphs=true&include_words=true".
Proof. reflexivity. Qed.

Example getJob_path_false_flags :
  getJob_path "job_abc123"
    (Some (GetJobOptions.mk (Some false) None (Some false)))
  = "/jobs/job_abc123".
Proof. reflexivity. Qed.

(** ** More on the polling loops *)





(** [waitForJob] returns nothing but a response whose status is
    [completed] or [failed]: a job that is [processing] or that
    [requires_asr_confirmation] is never handed back. *)
Theorem waitForJob_returns_only_terminal (jobId : string)
    (options : option PollOptions.t) (s s' : State.t)
    (r : TranscribeResponse.t) :
  waitForJob jobId options s = (Returned r, s') ->
  TranscribeResponse.status r = completed
  \/ TranscribeResponse.status r = failed.
Proof.
  unfold waitForJob, bind. rewrite waitForJob_loop_shape.
  destruct (poll_loop _ _ _ _ _ s) as [[[r0|]|e] s1] eqn:E;
    unfold ret, throw; intros H; inversion H; subst.
  apply poll_loop_returns_terminal in E. now apply job_terminal_iff.
Qed.

Lemma waitForJob_returns_only_terminal_witness :
  TranscribeResponse.status (sample_transcribe_response failed) = completed
  \/ TranscribeResponse.status (sample_transcribe_response failed) = failed.
Proof.
  apply (waitForJob_returns_only_terminal "job_abc123" None
           (sample_state
              (scripted [job_says requires_asr_confirmation;
                         job_says failed]))
           (state_after
              (sample_state
                 (scripted [job_says requires_asr_confirmation;
                            job_says failed]))
              (rounds 1 (exchange sample_client "GET" "/jobs/job_abc123" None)
                 5000
               ++ exchange sample_client "GET" "/jobs/job_abc123" None))
           (sample_transcribe_response failed)).
  vm_compute. reflexivity.
Defined.

Lemma sleep_then {A} (m : M A) (interval : Z) (s : State.t)
    (events : list Event) :
  (sleep interval ;; m) (state_after s events)
  = m (state_after s (events ++ [Delay interval])).
Proof.
  unfold bind, sleep, emit, state_after.
  cbn [State.this State.world World.network World.trace].
  now rewrite app_assoc.
Qed.

(** Whatever the network does, a loop of [n] iterations adds some [k] full
    rounds and then nothing, or a last exchange when an iteration was left
    for it. *)
Lemma poll_loop_trace {T} (cast : Json.t -> T) path terminal interval
    (n : nat) (s : State.t) :
  exists (k : nat) (last : list Event),
    snd (poll_loop cast path terminal interval n s)
    = state_after s
        (rounds k (exchange (State.this s) "GET" path None) interval ++ last)
    /\ (last = [] /\ (k <= n)%nat
        \/ last = exchange (State.this s) "GET" path None /\ (k < n)%nat).
Proof.
  revert s. induction n as [|n IH]; intros s.
  - exists 0%nat, []. split; [cbn; now rewrite state_after_nil|]. left.
    split; [reflexivity | lia].
  - cbn [poll_loop]. unfold bind at 1. unfold get. rewrite request_run.
    destruct (answer cast (State.this s) path (upcoming s 0)) as [r|e].
    + destruct (terminal r).
      * exists 0%nat, (exchange (State.this s) "GET" path None).
        split; [reflexivity|]. right. split; [reflexivity | lia].
      * rewrite sleep_then.
        destruct (IH (state_after s
                        (exchange (State.this s) "GET" path None
                         ++ [Delay interval])))
          as (k & last & Hs & Hlast).
        exists (S k), last. split.
        -- rewrite Hs, state_after_app. cbn [rounds state_after State.this].
           now rewrite <- !app_assoc.
        -- cbn [state_after State.this] in Hlast.
           destruct Hlast as [[-> Hk]|[-> Hk]];
             [left | right]; split; try reflexivity; lia.
    + exists 0%nat, (exchange (State.this s) "GET" path None).
      split; [reflexivity|]. right. split; [reflexivity | lia].
Qed.

(** Polling is bounded and evenly paced, whatever the network answers:
    [waitForJob] and [waitForBatch] make at most [maxAttempts] calls, and
    the delays they wait are all of [interval] ms, at most [maxAttempts]
    of them. *)
Theorem polling_is_bounded (id : string) (options : option PollOptions.t)
    (s : State.t) :
  let bound := Z.to_nat (poll_maxAttempts options) in
  let bounded (s' : State.t) :=
    (fetches (World.trace (State.world s'))
     <= fetches (World.trace (State.world s)) + bound)%nat
    /\ exists k : nat,
         (k <= bound)%nat
         /\ delays (World.trace (State.world s'))
            = (delays (World.trace (State.world s))
               ++ repeat (poll_interval options) k)%list in
  bounded (snd (waitForJob id options s))
  /\ bounded (snd (waitForBatch id options s)).
Proof.
  cbn zeta.
  assert (Hloop : forall (T : Type) (cast : Json.t -> T) path terminal,
             let s' := snd (poll_loop cast path terminal
                              (poll_interval options)
                              (Z.to_nat (poll_maxAttempts options)) s) in
             (fetches (World.trace (State.world s'))
              <= fetches (World.trace (State.world s))
                 + Z.to_nat (poll_maxAttempts options))%nat
             /\ exists k : nat,
                  (k <= Z.to_nat (poll_maxAttempts options))%nat
                  /\ delays (World.trace (State.world s'))
                     = (delays (World.trace (State.world s))
                        ++ repeat (poll_interval options) k)%list).
  { intros T cast path terminal. cbn zeta.
    destruct (poll_loop_trace cast path terminal (poll_interval options)
                (Z.to_nat (poll_maxAttempts options)) s)
      as (k & last & -> & Hlast).
    rewrite fetches_state_after, fetches_app, fetches_rounds.
    unfold state_after. cbn [State.world World.trace].
    rewrite !delays_app, delays_rounds.
    destruct Hlast as [[-> Hk]|[-> Hk]].
    - split; [cbn; lia|]. exists k. split; [lia|].
      cbn [delays flat_map]. now rewrite app_nil_r.
    - split; [rewrite fetches_exchange; lia|]. exists k. split; [lia|].
      cbn [exchange delays flat_map app]. now rewrite app_nil_r. }
  split.
  - unfold waitForJob, bind. rewrite waitForJob_loop_shape.
    specialize (Hloop _ Json.asTranscribeResponse (getJob_path id None)
                  (fun r => job_terminal (TranscribeResponse.status r))).
    cbn zeta in Hloop.
    destruct (poll_loop _ _ _ _ _ s) as [[[r|]|e] s1]; exact Hloop.
  - unfold waitForBatch, bind. rewrite waitForBatch_loop_shape.
    specialize (Hloop _ Json.asBatchResponse ("/batch/" ++ id)
                  (fun r => batch_terminal (BatchResponse.status r))).
    cbn zeta in Hloop.
    destruct (poll_loop _ _ _ _ _ s) as [[[r|]|e] s1]; exact Hloop.
Qed.

(** ** More on construction *)

Lemma slashes_to_end_of_slashes (k : nat) : slashes_to_end (slashes k) = true.
Proof. induction k as [|k IH]; [reflexivity | exact IH]. Qed.

Lemma clean_prefix_blocks_match (r : string) (k : nat) :
  r <> "" -> ends_with_slash r = false ->
  slashes_to_end (r ++ slashes k) = false.
Proof.
  induction r as [|c r IH]; [congruence|]. intros _ Hclean.
  cbn [append slashes_to_end].
  destruct r as [|c' r'].
  - cbn in Hclean. now rewrite Hclean.
  - rewrite IH; [apply andb_false_r | discriminate | exact Hclean].
Qed.

(** The replacement cuts the whole run of slashes at the end and nothing
    else: a string that does not end with a slash, followed by any number
    of slashes, is brought back to that string.  Slashes inside the string
    stay, and applying the replacement twice is the same as once. *)
Theorem replace_trailing_slashes_exact (r : string) (k : nat) :
  ends_with_slash r = false ->
  replace_trailing_slashes (r ++ slashes k) = r
  /\ replace_trailing_slashes
       (replace_trailing_slashes (r ++ slashes k)) = r.
Proof.
  intros Hclean.
  assert (E : replace_trailing_slashes (r ++ slashes k) = r).
  { induction r as [|c r IH].
    - cbn [append]. destruct k as [|k]; [reflexivity|].
      cbn [slashes replace_trailing_slashes matches_trailing_slashes].
      change (String "/" (slashes k)) with (slashes (S k)).
      now rewrite slashes_to_end_of_slashes.
    - cbn [append replace_trailing_slashes matches_trailing_slashes].
      change (String c (r ++ slashes k)) with (String c r ++ slashes k).
      rewrite clean_prefix_blocks_match; [|discriminate|exact Hclean].
      f_equal. destruct r as [|c' r'].
      + cbn [append]. destruct k as [|k]; [reflexivity|].
        cbn [slashes replace_trailing_slashes matches_trailing_slashes].
        change (String "/" (slashes k)) with (slashes (S k)).
        now rewrite slashes_to_end_of_slashes.
      + apply IH. exact Hclean. }
  split; [exact E|]. rewrite E.
  now apply replace_trailing_slashes_id.
Qed.

Lemma replace_trailing_slashes_exact_witness :
  replace_trailing_slashes ("https://x//api" ++ slashes 3) = "https://x//api"
  /\ replace_trailing_slashes
       (replace_trailing_slashes ("https://x//api" ++ slashes 3))
     = "https://x//api".
Proof.
  apply (replace_trailing_slashes_exact "https://x//api" 3). reflexivity.
Defined.

(** Every client the constructor returns is well formed, whatever the
    options: its key is not empty, its base URL does not end with a slash
    (the default one included) and its timeout is not zero.  It stays that
    client through every invocation. *)
Theorem constructed_client_is_well_formed
    (options : YouTubeTranscriptOptions.t) (client : YouTubeTranscript.t) :
  constructor options = Returned client ->
  YouTubeTranscript.apiKey client <> ""
  /\ YouTubeTranscriptOptions.apiKey options
     = Some (YouTubeTranscript.apiKey client)
  /\ ends_with_slash (YouTubeTranscript.baseUrl client) = false
  /\ YouTubeTranscript.timeout client <> 0
  /\ forall ops w,
       State.this (snd (invoke_all ops (State.mk client w))) = client.
Proof.
  unfold constructor.
  destruct (YouTubeTranscriptOptions.apiKey options) as [[|c r]|];
    try discriminate.
  intros [= <-]. cbn [YouTubeTranscript.apiKey YouTubeTranscript.baseUrl
                      YouTubeTranscript.timeout].
  split; [discriminate|]. split; [reflexivity|].
  split; [apply replace_trailing_slashes_clean|].
  split; [apply or_number_nonzero; discriminate|].
  intros ops w.
  now destruct (invoke_all_appends ops
                  (State.mk
                     {| YouTubeTranscript.apiKey := String c r;
                        YouTubeTranscript.baseUrl :=
                          replace_trailing_slashes
                            (or_string
                               (YouTubeTranscriptOptions.baseUrl options)
                               DEFAULT_BASE_URL);
                        YouTubeTranscript.timeout :=
                          or_number
                            (YouTubeTranscriptOptions.timeout options)
                            DEFAULT_TIMEOUT |} w)) as [events ->].
Qed.

Lemma constructed_client_is_well_formed_witness :
  YouTubeTranscript.apiKey sample_client <> ""
  /\ Some "key_123" = Some (YouTubeTranscript.apiKey sample_client)
  /\ ends_with_slash (YouTubeTranscript.baseUrl sample_client) = false
  /\ YouTubeTranscript.timeout sample_client <> 0
  /\ forall ops w,
       State.this (snd (invoke_all ops (State.mk sample_client w)))
       = sample_client.
Proof.
  apply (constructed_client_is_well_formed
           (YouTubeTranscriptOptions.mk (Some "key_123") (Some "https://x///")
              (Some 0))
           sample_client).
  reflexivity.
Defined.
